(** * JNI glue of the Conversations client and the Video room

    A shallow embedding of the two JNI translation units
    - [com_twilio_conversations_impl_ConversationsClientImpl.cpp]
    - [com_twilio_video_Room.cpp]

    Every entry point is a function in a small state-and-fault monad.
    The state holds the native heap (the objects reached through the
    [jlong] handles) and the log of the calls made to the collaborators
    the glue code talks to: the JNI environment, the logger, the
    signalling SDK, the room engine, and the C++ allocator.

    The glue code never tests the references to Java objects it is
    handed (the access manager, the listeners, the option array and its
    strings); what it tests are the native handles.  The entry points of
    [ConversationsClientImpl] and [Room] below take these references as
    non-null.  [Nullable.createEndpoint] is [createEndpoint] with every
    reference allowed to be [NULL]; the two agree on non-null
    references. *)

From Stdlib Require Import ZArith String List Lia.
From stdpp Require Import base option list gmap strings fin_maps fin_sets.

Local Open Scope Z_scope.
Local Open Scope string_scope.

(** ** Data model *)

(** A [jlong] carries a native pointer; [0] is the null pointer. *)
Abbreviation jlong := (Z) (only parsing).
Abbreviation pointer := (Z) (only parsing).
Definition nullptr : pointer := 0.

(** A [jobject] that the glue code only stores or passes on. *)
Abbreviation jobject := (Z) (only parsing).

(** A [jstring] local reference: [None] is the [NULL] reference that
    [GetObjectArrayElement] hands back when it fails. *)
Abbreviation jstring := (option string) (only parsing).

(** The [String[]] the Java caller passes as [optionsArray]: keys and
    values of an option map, flattened. *)
Abbreviation jobjectArray := (list string) (only parsing).

(** Modelled from the spec: [TSCOptions] is declared in the SDK header
    [TSCoreSDKTypes.h], which is not among the sources; the spec calls it
    the "options mapping".  It is filled by [options[key] = value], which
    adds the key or overwrites its value. *)
Abbreviation TSCOptions := (gmap string string).

(** The Java access manager; [getNativeHandle()J] yields the address of
    the native [TwilioCommon::AccessManager]. *)
Record JavaAccessManager := { getNativeHandle : jlong }.

Inductive log_module := kTSCoreLogModuleSignalSDK | kTSCoreLogModulePlatform.
Inductive log_level := kTSCoreLogLevelDebug | kTSCoreLogLevelError.

(** Objects of the native heap.  A [TSCEndpointPtr], a
    [TSCEndpointObserverPtr] and a [TSCSessionPtr] are smart pointers:
    the cell holds the address they point to, [0] when empty. *)
Inductive object :=
| AccessManager (token : string)
| TSCEndpointObserverPtr (target : pointer)
| TSCEndpointPtr (target : pointer)
| TSCSessionPtr (target : pointer)
| RoomContext (room : pointer)
| AndroidRoomObserver (j_listener : jobject) (observer_deleted : bool)
| AndroidStatsObserver (j_listener : jobject) (observer_deleted : bool).

Inductive jthrowable := ArrayIndexOutOfBoundsException.

(** Calls that leave the translation unit, in program order.  Recorded
    are the array reads, the exceptions they leave pending, the releases
    of local references, the upcall into Java, the logger, the SDK and
    room calls and the allocator.  [GetArrayLength] and the string
    accessors inside [JavaToStdString] leave no entry. *)
Inductive event :=
| Log (m : log_module) (l : log_level) (msg : string)
| LogDebug (msg : string)
| GetObjectArrayElement (index : Z)
| Throw (e : jthrowable)
| DeleteLocalRef (ref : jstring)
| CallLongMethod (name : string)
| SdkCreateEndpoint (options : TSCOptions) (accessManager : pointer)
    (observer : pointer)
| SdkDestroyEndpoint (endpoint : pointer)
| RegisterEndpoint (endpoint : pointer) (a b : bool)
| UnregisterEndpoint (endpoint : pointer)
| Reject (endpoint session : pointer)
| Disconnect (room : pointer)
| GetStats (room observer : pointer)
| New (p : pointer)
| Reset (p : pointer)
| SetObserverDeleted (p : pointer)
| Delete (p : pointer)
| Callback (j_listener : jobject).

Record state := { heap : gmap Z object; trace : list event }.

(** Ways a call leaves defined behaviour.  [NullReference] is a JNI
    call on a [NULL] object or array, [NullString] the conversion of a
    [NULL] string. *)
Inductive fault :=
| NullDereference
| UseAfterFree (p : pointer)
| DoubleFree (p : pointer)
| BadCast (p : pointer)
| NullString
| NullReference.

(** [Fault f s] is a run that leaves defined behaviour: [s] is the state
    at that point, and what a build does from there on is not described. *)

Inductive result (A : Type) :=
| Done (a : A) (s : state)
| Fault (f : fault) (s : state)
| OutOfFuel.
Arguments Done {A} a s.
Arguments Fault {A} f s.
Arguments OutOfFuel {A}.

(** ** The monad *)

Definition M (A : Type) : Type := state -> result A.

Definition ret {A} (a : A) : M A := fun s => Done a s.

Definition bind {A B} (m : M A) (k : A -> M B) : M B :=
  fun s =>
    match m s with
    | Done a s' => k a s'
    | Fault f s' => Fault f s'
    | OutOfFuel => OutOfFuel
    end.

Declare Scope jni_scope.
Delimit Scope jni_scope with jni.
Notation "'do' x <- m ; k" := (bind m (fun x => k))
  (at level 10, x name, m at level 100, k at level 200) : jni_scope.
Notation "m ;; k" := (bind m (fun _ => k))
  (at level 100, k at level 200, right associativity) : jni_scope.
Local Open Scope jni_scope.

Definition emit (e : event) : M unit :=
  fun s => Done tt {| heap := heap s; trace := trace s ++ [e] |}.

Definition raise {A} (f : fault) : M A := fun s => Fault f s.

(** Reading through a pointer: null and dangling pointers are faults. *)
Definition load (p : pointer) : M object :=
  fun s =>
    if decide (p = nullptr) then Fault NullDereference s
    else match heap s !! p with
         | Some o => Done o s
         | None => Fault (UseAfterFree p) s
         end.

Definition store (p : pointer) (o : object) : M unit :=
  fun s => Done tt {| heap := <[p := o]> (heap s); trace := trace s |}.

Definition free (p : pointer) : M unit :=
  fun s => Done tt {| heap := delete p (heap s); trace := trace s |}.

(** [delete p]: the object must be live; deleting it twice is a fault.
    As in C++, deleting the null pointer does nothing. *)
Definition delete_ (p : pointer) : M unit :=
  fun s =>
    if decide (p = nullptr) then Done tt s
    else match heap s !! p with
         | Some _ => (emit (Delete p);; free p) s
         | None => Fault (DoubleFree p) s
         end.

(** Typed reads, one per pointer type the code casts a handle to.  A
    [reinterpret_cast] checks nothing: reading an object of another type
    through the handle is where defined behaviour ends. *)
Definition load_AccessManager (p : pointer) : M string :=
  do o <- load p;
  match o with AccessManager token => ret token | _ => raise (BadCast p) end.

Definition load_TSCEndpointObserverPtr (p : pointer) : M pointer :=
  do o <- load p;
  match o with TSCEndpointObserverPtr t => ret t | _ => raise (BadCast p) end.

Definition load_TSCEndpointPtr (p : pointer) : M pointer :=
  do o <- load p;
  match o with TSCEndpointPtr t => ret t | _ => raise (BadCast p) end.

Definition load_TSCSessionPtr (p : pointer) : M pointer :=
  do o <- load p;
  match o with TSCSessionPtr t => ret t | _ => raise (BadCast p) end.

Definition load_RoomContext (p : pointer) : M pointer :=
  do o <- load p;
  match o with RoomContext room => ret room | _ => raise (BadCast p) end.

(** Calling a member function through a raw pointer. *)
Definition through (p : pointer) (e : event) : M unit :=
  if decide (p = nullptr) then raise NullDereference else emit e.

(** ** JNI helpers *)

Definition TS_CORE_LOG_MODULE (m : log_module) (l : log_level) (msg : string)
  : M unit := emit (Log m l msg).

Definition TS_CORE_LOG_DEBUG (msg : string) : M unit := emit (LogDebug msg).

Definition jlongFromPointer (p : pointer) : jlong := p.

Definition GetArrayLength (a : jobjectArray) : Z := Z.of_nat (length a).

(** [env->GetObjectArrayElement(array, i)]: outside the array the JNI
    call throws [ArrayIndexOutOfBoundsException] (left pending in the
    environment) and hands back [NULL]. *)
Definition env_GetObjectArrayElement (a : jobjectArray) (i : Z) : M jstring :=
  emit (GetObjectArrayElement i);;
  match (if decide (0 <= i) then a !! Z.to_nat i else None) with
  | Some str => ret (Some str)
  | None => emit (Throw ArrayIndexOutOfBoundsException);; ret None
  end.

(** [JavaToStdString] of WebRTC's [jni_helpers.h]: the helper checks its
    JNI calls and aborts on a [NULL] string. *)
Definition JavaToStdString (j : jstring) : M string :=
  match j with
  | Some str => ret str
  | None => raise NullString
  end.

Definition env_DeleteLocalRef (j : jstring) : M unit := emit (DeleteLocalRef j).

(** [new T(...)]: the allocator picks the address. *)
Definition new (alloc : gmap Z object -> pointer) (o : object) : M pointer :=
  fun s =>
    let p := alloc (heap s) in
    Done p {| heap := <[p := o]> (heap s); trace := trace s ++ [New p] |}.

(** ** Observer adapters *)

(** Modelled from the spec: [android_room_observer.h] and
    [android_stats_observer.h] are not part of the sources at hand.
    [setObserverDeleted] "marks the adapter's backing managed object
    reference as invalidated". *)
Definition setObserverDeleted (p : pointer) : M unit :=
  do o <- load p;
  match o with
  | AndroidRoomObserver j _ =>
      emit (SetObserverDeleted p);; store p (AndroidRoomObserver j true)
  | AndroidStatsObserver j _ =>
      emit (SetObserverDeleted p);; store p (AndroidStatsObserver j true)
  | _ => raise (BadCast p)
  end.

(** Modelled from the spec: the adapters' callback path, absent from the
    sources at hand.  The mark is "a best-effort flag check": a dispatch
    first reads the flag of the adapter and calls into the managed
    listener only when the flag is clear. *)
Definition dispatch_check (p : pointer) : M (option jobject) :=
  do o <- load p;
  match o with
  | AndroidRoomObserver j deleted | AndroidStatsObserver j deleted =>
      ret (if deleted then None else Some j)
  | _ => raise (BadCast p)
  end.

Definition dispatch_deliver (target : option jobject) : M unit :=
  match target with
  | Some j => emit (Callback j)
  | None => ret tt
  end.

Definition dispatch (p : pointer) : M unit :=
  do target <- dispatch_check p;
  dispatch_deliver target.

(** ** com_twilio_conversations_impl_ConversationsClientImpl.cpp *)

Module ConversationsClientImpl.

(** The [while (i < size)] loop of [createEndpoint].  Every iteration
    advances [i] by two, so [S size] units of fuel are enough. *)
Fixpoint marshal_loop (fuel : nat) (optionsArray : jobjectArray)
    (size i : Z) (options : TSCOptions) : M TSCOptions :=
  match fuel with
  | O => fun _ => OutOfFuel
  | S fuel =>
      if decide (i < size) then
        do jKey <- env_GetObjectArrayElement optionsArray i;
        let i := i + 1 in
        do jValue <- env_GetObjectArrayElement optionsArray i;
        let i := i + 1 in
        do key <- JavaToStdString jKey;
        do value <- JavaToStdString jValue;
        let options := <[key := value]> options in
        env_DeleteLocalRef jKey;;
        env_DeleteLocalRef jValue;;
        marshal_loop fuel optionsArray size i options
      else ret options
  end.

(** Lines 23 to 35: [TSCOptions options] and the loop that fills it. *)
Definition marshal_options (optionsArray : jobjectArray) : M TSCOptions :=
  let size := GetArrayLength optionsArray in
  marshal_loop (S (length optionsArray)) optionsArray size 0 ∅.

Definition getNativeAccessMgrFromJava (j_accessMgr : JavaAccessManager)
  : M pointer :=
  emit (CallLongMethod "getNativeHandle");;
  ret (getNativeHandle j_accessMgr).

Section Factory.
(** The allocator behind [new], and the endpoint that
    [TSCSDK::instance()->createEndpoint] hands back. *)
Variable alloc : gmap Z object -> pointer.
Variable sdk_createEndpoint : TSCOptions -> pointer -> pointer -> pointer.

Definition createEndpoint (j_accessMgr : JavaAccessManager)
    (optionsArray : jobjectArray) (nativeEndpointObserver : jlong)
  : M jlong :=
  TS_CORE_LOG_MODULE kTSCoreLogModuleSignalSDK kTSCoreLogLevelDebug
    "createEndpoint";;
  do options <- marshal_options optionsArray;
  if decide (nativeEndpointObserver = 0) then
    TS_CORE_LOG_MODULE kTSCoreLogModuleSignalSDK kTSCoreLogLevelError
      "nativeEndpointObserver is null";;
    ret 0
  else
    let endpointObserver := nativeEndpointObserver in
    do accessManager <- getNativeAccessMgrFromJava j_accessMgr;
    if decide (accessManager = nullptr) then
      TS_CORE_LOG_MODULE kTSCoreLogModuleSignalSDK kTSCoreLogLevelError
        "AccessManager is null";;
      ret 0
    else
      do token <- load_AccessManager accessManager;
      if decide (token = "") then
        TS_CORE_LOG_MODULE kTSCoreLogModuleSignalSDK kTSCoreLogLevelError
          "token is null";;
        ret 0
      else
        do token <- load_AccessManager accessManager;
        TS_CORE_LOG_DEBUG ("access token is:" ++ token);;
        do endpoint <- new alloc (TSCEndpointPtr nullptr);
        do observer <- load_TSCEndpointObserverPtr endpointObserver;
        emit (SdkCreateEndpoint options accessManager observer);;
        store endpoint
          (TSCEndpointPtr (sdk_createEndpoint options accessManager observer));;
        ret (jlongFromPointer endpoint).
End Factory.

Definition listen (nativeEndpoint : jlong) : M unit :=
  TS_CORE_LOG_MODULE kTSCoreLogModuleSignalSDK kTSCoreLogLevelDebug "listen";;
  do endpoint <- load_TSCEndpointPtr nativeEndpoint;
  through endpoint (RegisterEndpoint endpoint true true).

Definition unlisten (nativeEndpoint : jlong) : M unit :=
  TS_CORE_LOG_MODULE kTSCoreLogModuleSignalSDK kTSCoreLogLevelDebug "unlisten";;
  do endpoint <- load_TSCEndpointPtr nativeEndpoint;
  through endpoint (UnregisterEndpoint endpoint).

Definition reject (nativeEndpoint nativeSession : jlong) : M unit :=
  TS_CORE_LOG_MODULE kTSCoreLogModuleSignalSDK kTSCoreLogLevelDebug "reject";;
  let session := nativeSession in
  do endpoint <- load_TSCEndpointPtr nativeEndpoint;
  do target <- load_TSCSessionPtr session;
  through endpoint (Reject endpoint target).

(** [endpoint->reset()] *)
Definition reset (p : pointer) : M unit :=
  do _ <- load_TSCEndpointPtr p;
  emit (Reset p);;
  store p (TSCEndpointPtr nullptr).

Definition freeNativeHandle (nativeEndpoint : jlong) : M unit :=
  TS_CORE_LOG_MODULE kTSCoreLogModuleSignalSDK kTSCoreLogLevelDebug
    "freeNativeHandle";;
  let endpoint := nativeEndpoint in
  if decide (endpoint ≠ nullptr) then
    do target <- load_TSCEndpointPtr endpoint;
    emit (SdkDestroyEndpoint target);;
    reset endpoint;;
    delete_ endpoint
  else ret tt.

End ConversationsClientImpl.

(** ** createEndpoint with nullable references *)

(** Lines 19 to 69 again, this time with the three references the JNI
    signature hands over allowed to be [NULL]: the access manager
    ([None]), the option array ([None]) and each of its slots. *)
Module Nullable.

(** [env->GetArrayLength(array)] on a [NULL] array is no defined call. *)
Definition env_GetArrayLength (array : option (list (option string))) : M Z :=
  match array with
  | Some elements => ret (Z.of_nat (length elements))
  | None => raise NullReference
  end.

Definition env_GetObjectArrayElement (elements : list (option string)) (i : Z)
  : M jstring :=
  emit (GetObjectArrayElement i);;
  match (if decide (0 <= i) then elements !! Z.to_nat i else None) with
  | Some slot => ret slot
  | None => emit (Throw ArrayIndexOutOfBoundsException);; ret None
  end.

Fixpoint marshal_loop (fuel : nat) (elements : list (option string))
    (size i : Z) (options : TSCOptions) : M TSCOptions :=
  match fuel with
  | O => fun _ => OutOfFuel
  | S fuel =>
      if decide (i < size) then
        do jKey <- env_GetObjectArrayElement elements i;
        let i := i + 1 in
        do jValue <- env_GetObjectArrayElement elements i;
        let i := i + 1 in
        do key <- JavaToStdString jKey;
        do value <- JavaToStdString jValue;
        let options := <[key := value]> options in
        env_DeleteLocalRef jKey;;
        env_DeleteLocalRef jValue;;
        marshal_loop fuel elements size i options
      else ret options
  end.

Definition marshal_options (optionsArray : option (list (option string)))
  : M TSCOptions :=
  do size <- env_GetArrayLength optionsArray;
  match optionsArray with
  | Some elements => marshal_loop (S (length elements)) elements size 0 ∅
  | None => raise NullReference
  end.

(** [GetObjectClass(jni, j_accessMgr)] of WebRTC's [jni_helpers.h] checks
    its result and aborts on a [NULL] object. *)
Definition getNativeAccessMgrFromJava (j_accessMgr : option JavaAccessManager)
  : M pointer :=
  match j_accessMgr with
  | Some manager =>
      emit (CallLongMethod "getNativeHandle");;
      ret (getNativeHandle manager)
  | None => raise NullReference
  end.

Definition createEndpoint (alloc : gmap Z object -> pointer)
    (sdk_createEndpoint : TSCOptions -> pointer -> pointer -> pointer)
    (j_accessMgr : option JavaAccessManager)
    (optionsArray : option (list (option string)))
    (nativeEndpointObserver : jlong) : M jlong :=
  TS_CORE_LOG_MODULE kTSCoreLogModuleSignalSDK kTSCoreLogLevelDebug
    "createEndpoint";;
  do options <- marshal_options optionsArray;
  if decide (nativeEndpointObserver = 0) then
    TS_CORE_LOG_MODULE kTSCoreLogModuleSignalSDK kTSCoreLogLevelError
      "nativeEndpointObserver is null";;
    ret 0
  else
    let endpointObserver := nativeEndpointObserver in
    do accessManager <- getNativeAccessMgrFromJava j_accessMgr;
    if decide (accessManager = nullptr) then
      TS_CORE_LOG_MODULE kTSCoreLogModuleSignalSDK kTSCoreLogLevelError
        "AccessManager is null";;
      ret 0
    else
      do token <- load_AccessManager accessManager;
      if decide (token = "") then
        TS_CORE_LOG_MODULE kTSCoreLogModuleSignalSDK kTSCoreLogLevelError
          "token is null";;
        ret 0
      else
        do token <- load_AccessManager accessManager;
        TS_CORE_LOG_DEBUG ("access token is:" ++ token);;
        do endpoint <- new alloc (TSCEndpointPtr nullptr);
        do observer <- load_TSCEndpointObserverPtr endpointObserver;
        emit (SdkCreateEndpoint options accessManager observer);;
        store endpoint
          (TSCEndpointPtr (sdk_createEndpoint options accessManager observer));;
        ret (jlongFromPointer endpoint).

End Nullable.

(** ** com_twilio_video_Room.cpp *)

Module Room.

Definition nativeDisconnect (j_native_handle : jlong) : M unit :=
  TS_CORE_LOG_MODULE kTSCoreLogModulePlatform kTSCoreLogLevelDebug
    "Java_com_twilio_video_Room_nativeDisconnect";;
  let room_context := j_native_handle in
  do room <- load_RoomContext room_context;
  through room (Disconnect room).

Definition nativeGetStats (j_native_room_context j_native_stats_observer : jlong)
  : M unit :=
  TS_CORE_LOG_MODULE kTSCoreLogModulePlatform kTSCoreLogLevelDebug
    "Java_com_twilio_video_Room_nativeGetStats";;
  let room_context := j_native_room_context in
  let android_stats_observer := j_native_stats_observer in
  do room <- load_RoomContext room_context;
  through room (GetStats room android_stats_observer).

Definition nativeRelease (j_native_handle : jlong) : M unit :=
  TS_CORE_LOG_MODULE kTSCoreLogModulePlatform kTSCoreLogLevelDebug
    "Java_com_twilio_video_Room_nativeRelease";;
  let room_context := j_native_handle in
  if decide (room_context = nullptr) then ret tt
  else delete_ room_context.

(** [Room$InternalRoomListenerHandle] *)
Module InternalRoomListenerHandle.

Definition nativeCreate (alloc : gmap Z object -> pointer) (object : jobject)
  : M jlong :=
  TS_CORE_LOG_MODULE kTSCoreLogModulePlatform kTSCoreLogLevelDebug
    "Create AndroidRoomObserver";;
  do android_room_observer <- new alloc (AndroidRoomObserver object false);
  ret (jlongFromPointer android_room_observer).

Definition nativeRelease (nativeHandle : jlong) : M unit :=
  TS_CORE_LOG_MODULE kTSCoreLogModulePlatform kTSCoreLogLevelDebug
    "Free AndroidRoomObserver";;
  let android_room_observer := nativeHandle in
  if decide (android_room_observer ≠ nullptr) then
    setObserverDeleted android_room_observer;;
    delete_ android_room_observer
  else ret tt.

End InternalRoomListenerHandle.

(** [Room$InternalStatsListenerHandle] *)
Module InternalStatsListenerHandle.

Definition nativeCreate (alloc : gmap Z object -> pointer) (object : jobject)
  : M jlong :=
  TS_CORE_LOG_MODULE kTSCoreLogModulePlatform kTSCoreLogLevelDebug
    "Create AndroidStatsObserver";;
  do android_stats_observer <- new alloc (AndroidStatsObserver object false);
  ret (jlongFromPointer android_stats_observer).

Definition nativeRelease (nativeHandle : jlong) : M unit :=
  TS_CORE_LOG_MODULE kTSCoreLogModulePlatform kTSCoreLogLevelDebug
    "Free AndroidStatsObserver";;
  let android_stats_observer := nativeHandle in
  if decide (android_stats_observer ≠ nullptr) then
    setObserverDeleted android_stats_observer;;
    delete_ android_stats_observer
  else ret tt.

End InternalStatsListenerHandle.

End Room.

(** A bump allocator: one past the highest live address, never [0]. *)
Definition bump_alloc (h : gmap Z object) : pointer :=
  1 + map_fold (fun k _ acc => Z.max k acc) 0 h.

(** A factory that hands back one fixed endpoint. *)
Definition sdk_stub (_ : TSCOptions) (_ _ : pointer) : pointer := 4096.

Definition empty_state : state := {| heap := ∅; trace := [] |}.

(** A heap with one object of each kind, for concrete runs. *)
Definition sample_state : state :=
  {| heap := <[8 := TSCEndpointPtr 4096]>
               (<[16 := AccessManager "tok"]>
                  (<[24 := AccessManager ""]>
                     (<[32 := TSCEndpointObserverPtr 77]>
                        (<[40 := AndroidRoomObserver 9 false]>
                           (<[48 := AndroidStatsObserver 9 false]>
                              (<[56 := RoomContext 500]> ∅))))));
     trace := [] |}.

Definition run {A} (m : M A) : result A := m empty_state.

(** ** Vocabulary of the statements *)

(** The state reached from [s] with heap [h] after the calls [es]. *)
Definition after (s : state) (h : gmap Z object) (es : list event) : state :=
  {| heap := h; trace := trace s ++ es |}.

(** The calls logged by the time a run stops. *)
Definition trace_of {A} (r : result A) : list event :=
  match r with
  | Done _ s | Fault _ s => trace s
  | OutOfFuel => []
  end.

Definition returns {A} (r : result A) : Prop := exists a s, r = Done a s.

Definition log_signal (msg : string) : event :=
  Log kTSCoreLogModuleSignalSDK kTSCoreLogLevelDebug msg.
Definition log_platform (msg : string) : event :=
  Log kTSCoreLogModulePlatform kTSCoreLogLevelDebug msg.

(** The two listener handles of [Room] follow one pattern. *)
Inductive listener_kind := RoomListener | StatsListener.

Definition adapter (k : listener_kind) (j : jobject) (deleted : bool) : object :=
  match k with
  | RoomListener => AndroidRoomObserver j deleted
  | StatsListener => AndroidStatsObserver j deleted
  end.

Definition listener_nativeCreate (k : listener_kind) :=
  match k with
  | RoomListener => Room.InternalRoomListenerHandle.nativeCreate
  | StatsListener => Room.InternalStatsListenerHandle.nativeCreate
  end.

Definition listener_nativeRelease (k : listener_kind) :=
  match k with
  | RoomListener => Room.InternalRoomListenerHandle.nativeRelease
  | StatsListener => Room.InternalStatsListenerHandle.nativeRelease
  end.

Definition listener_name (k : listener_kind) : string :=
  match k with
  | RoomListener => "AndroidRoomObserver"
  | StatsListener => "AndroidStatsObserver"
  end.

(** The key/value pairs of a flattened array: entry [2j] with entry
    [2j+1]. *)
Fixpoint pairs (l : list string) : list (string * string) :=
  match l with
  | k :: v :: rest => (k, v) :: pairs rest
  | _ => []
  end.

Definition keys (l : list string) : list string := (pairs l).*1.

(** [options[key] = value] *)
Definition assign (m : TSCOptions) (kv : string * string) : TSCOptions :=
  <[kv.1 := kv.2]> m.

(** The JNI calls of the marshalling loop over the entries [l] that start
    at index [i]; a last entry without a partner ends in the failed read
    one past the array. *)
Fixpoint marshal_events (i : Z) (l : list string) : list event :=
  match l with
  | k :: v :: rest =>
      GetObjectArrayElement i :: GetObjectArrayElement (i + 1)
        :: DeleteLocalRef (Some k) :: DeleteLocalRef (Some v)
        :: marshal_events (i + 2) rest
  | [k] =>
      [GetObjectArrayElement i; GetObjectArrayElement (i + 1);
       Throw ArrayIndexOutOfBoundsException]
  | [] => []
  end.

(** An array read inside [0, size). *)
Definition read_in_bounds (size : Z) (e : event) : Prop :=
  match e with
  | GetObjectArrayElement i => 0 <= i < size
  | _ => True
  end.

Definition is_throw (e : event) : bool :=
  match e with Throw _ => true | _ => false end.

Definition is_factory_call (e : event) : bool :=
  match e with SdkCreateEndpoint _ _ _ => true | _ => false end.

Definition is_marshalling (e : event) : bool :=
  match e with
  | GetObjectArrayElement _ | DeleteLocalRef _ => true
  | _ => false
  end.

Definition is_sdk_destroy (e : event) : bool :=
  match e with SdkDestroyEndpoint _ => true | _ => false end.

Definition is_delete (p : pointer) (e : event) : bool :=
  match e with Delete q => bool_decide (p = q) | _ => false end.

Definition is_callback (e : event) : bool :=
  match e with Callback _ => true | _ => false end.

Definition count (f : event -> bool) (es : list event) : nat :=
  length (List.filter f es).

Definition log_error (msg : string) : event :=
  Log kTSCoreLogModuleSignalSDK kTSCoreLogLevelError msg.

(** The three ways [createEndpoint] turns its arguments down, each with
    the calls the validation makes on the way. *)
Inductive rejected (j_accessMgr : JavaAccessManager) (observer : jlong)
    (s : state) : list event -> Prop :=
| observer_null :
    observer = 0 ->
    rejected j_accessMgr observer s [log_error "nativeEndpointObserver is null"]
| access_manager_null :
    observer ≠ 0 ->
    getNativeHandle j_accessMgr = 0 ->
    rejected j_accessMgr observer s
      [CallLongMethod "getNativeHandle"; log_error "AccessManager is null"]
| token_empty :
    observer ≠ 0 ->
    getNativeHandle j_accessMgr ≠ 0 ->
    heap s !! getNativeHandle j_accessMgr = Some (AccessManager "") ->
    rejected j_accessMgr observer s
      [CallLongMethod "getNativeHandle"; log_error "token is null"].

Definition release_entry (k : listener_kind) : event :=
  log_platform ("Free " +:+ listener_name k).

(** What a create/release pair does to an endpoint handle: the handle
    is not null, the release returns after one [destroyEndpoint] and one
    delete of the handle object, the handle is dead afterwards, and a
    second release with the same value reads the freed object. *)
Definition endpoint_lifecycle (alloc : gmap Z object -> pointer)
    (sdk_createEndpoint : TSCOptions -> pointer -> pointer -> pointer)
    (j_accessMgr : JavaAccessManager) (arr : jobjectArray) (observer : jlong)
    (s : state) : Prop :=
  exists h s1 endpoint,
    ConversationsClientImpl.createEndpoint alloc sdk_createEndpoint
      j_accessMgr arr observer s = Done h s1
    /\ h ≠ nullptr
    /\ let freed :=
         [log_signal "freeNativeHandle"; SdkDestroyEndpoint endpoint;
          Reset h; Delete h] in
       let s2 := after s1 (delete h (heap s1)) freed in
       ConversationsClientImpl.freeNativeHandle h s1 = Done tt s2
       /\ count is_sdk_destroy freed = 1%nat
       /\ count (is_delete h) freed = 1%nat
       /\ heap s2 !! h = None
       /\ ConversationsClientImpl.freeNativeHandle h s2
          = Fault (UseAfterFree h)
              (after s2 (heap s2) [log_signal "freeNativeHandle"]).

(** The same for a listener handle, with one delete of the adapter. *)
Definition listener_lifecycle (alloc : gmap Z object -> pointer)
    (k : listener_kind) (j : jobject) (s : state) : Prop :=
  exists h s1,
    listener_nativeCreate k alloc j s = Done h s1
    /\ h ≠ nullptr
    /\ let freed := [release_entry k; SetObserverDeleted h; Delete h] in
       let s2 := after s1 (delete h (heap s1)) freed in
       listener_nativeRelease k h s1 = Done tt s2
       /\ count (is_delete h) freed = 1%nat
       /\ heap s2 !! h = None
       /\ listener_nativeRelease k h s2
          = Fault (UseAfterFree h) (after s2 (heap s2) [release_entry k]).

(** Arguments [createEndpoint] must not build an endpoint from: a null
    observer handle, a [NULL] access manager, a null native access
    manager behind it, or one whose token is empty. *)
Definition invalid_arguments (j_accessMgr : option JavaAccessManager)
    (observer : jlong) (s : state) : Prop :=
  observer = 0
  \/ j_accessMgr = None
  \/ exists manager,
       j_accessMgr = Some manager
       /\ (getNativeHandle manager = 0
           \/ heap s !! getNativeHandle manager = Some (AccessManager "")).

(** ** A release racing a callback *)

(** The two threads of the race the mark is there for: the caller in a
    listener [nativeRelease], and an SDK thread in a callback dispatch. *)
Inductive thread := Releaser | Dispatcher.

(** How far the dispatch has got: not begun, flag read (with the
    listener to call, if any), or done. *)
Inductive dispatcher := Waiting | Checked (target : option jobject) | Finished.

(** The three calls of a listener [nativeRelease], one at a time. *)
Definition release_step (k : listener_kind) (h : jlong) (pc : nat) : M unit :=
  match pc with
  | 0%nat => emit (release_entry k)
  | 1%nat => if decide (h ≠ nullptr) then setObserverDeleted h else ret tt
  | 2%nat => if decide (h ≠ nullptr) then delete_ h else ret tt
  | _ => ret tt
  end.

(** One run of the two threads, each entry of the schedule letting the
    named thread take its next step. *)
Fixpoint run_schedule (k : listener_kind) (h : jlong) (schedule : list thread)
    (pc : nat) (d : dispatcher) : M unit :=
  match schedule with
  | [] => ret tt
  | Releaser :: rest =>
      release_step k h pc;; run_schedule k h rest (S pc) d
  | Dispatcher :: rest =>
      match d with
      | Waiting =>
          do target <- dispatch_check h;
          run_schedule k h rest pc (Checked target)
      | Checked target =>
          dispatch_deliver target;; run_schedule k h rest pc Finished
      | Finished => run_schedule k h rest pc Finished
      end
  end.

(** The steps the release takes in all, and those it has taken when the
    dispatch reads the flag. *)
Fixpoint release_steps (schedule : list thread) : nat :=
  match schedule with
  | [] => 0
  | Releaser :: rest => S (release_steps rest)
  | Dispatcher :: rest => release_steps rest
  end.

Fixpoint steps_before_check (schedule : list thread) : nat :=
  match schedule with
  | Releaser :: rest => S (steps_before_check rest)
  | _ => 0
  end.

(** ** Vocabulary of the further properties *)

(** The heap a run stops with. *)
Definition final_heap {A} (r : result A) : gmap Z object :=
  match r with
  | Done _ s | Fault _ s => heap s
  | OutOfFuel => ∅
  end.

(** The array the Java side builds from key/value pairs. *)
Definition flatten (ps : list (string * string)) : list string :=
  flat_map (fun kv => [kv.1; kv.2]) ps.



(** A run of [listen] and [unlisten] calls on one endpoint handle. *)
Inductive endpoint_call := Listen | Unlisten.

Definition call (h : jlong) (c : endpoint_call) : M unit :=
  match c with
  | Listen => ConversationsClientImpl.listen h
  | Unlisten => ConversationsClientImpl.unlisten h
  end.

Fixpoint calls (h : jlong) (cs : list endpoint_call) : M unit :=
  match cs with
  | [] => ret tt
  | c :: cs => call h c;; calls h cs
  end.

Definition call_events (endpoint : pointer) (c : endpoint_call) : list event :=
  match c with
  | Listen => [log_signal "listen"; RegisterEndpoint endpoint true true]
  | Unlisten => [log_signal "unlisten"; UnregisterEndpoint endpoint]
  end.

(** [sample_state] with a session pointer. *)
Definition session_state : state :=
  {| heap := <[64 := TSCSessionPtr 700]> (heap sample_state); trace := [] |}.

(** * Properties *)

(** Symbolic execution of a call: unfold the monad, then decide the
    tests and resolve the heap reads from the hypotheses at hand. *)
Ltac unfold_monad :=
  unfold load_AccessManager, load_TSCEndpointObserverPtr, load_TSCEndpointPtr,
    load_TSCSessionPtr, load_RoomContext, setObserverDeleted, dispatch,
    dispatch_check, dispatch_deliver, through, delete_, new, load, store,
    Nullable.getNativeAccessMgrFromJava,
    free, raise, TS_CORE_LOG_MODULE, TS_CORE_LOG_DEBUG, emit, bind, ret,
    jlongFromPointer, after, release_entry, log_signal, log_platform,
    log_error in *.

Ltac exec_step :=
  first
    [ rewrite decide_True by done
    | rewrite decide_False by done
    | match goal with
      | H : ?m !! ?p = _ |- context [?m !! ?p] => rewrite H
      end
    | rewrite lookup_insert_eq
    | rewrite lookup_delete_eq
    | rewrite lookup_insert_ne by done
    | rewrite lookup_delete_ne by done ].

Ltac exec := unfold_monad; simpl; repeat (exec_step; simpl).

(** Closing goals about the calls of a run. *)
Ltac quiet_trace H :=
  repeat (first [ apply Forall_cons; split; [done|]
                | apply Forall_app; split
                | apply Forall_nil_2
                | exact H ]).

Ltac trace_from s :=
  eexists; split;
    [unfold after; simpl; rewrite <- ?app_assoc; simpl; reflexivity|].

Ltac same_state := rewrite <- ?app_assoc; simpl; f_equal; try done.

(** ** Stepping lemmas *)

Lemma bind_Done {A B} (m : M A) (k : A -> M B) s a s' :
  m s = Done a s' -> bind m k s = k a s'.
Proof. unfold bind. intros ->. reflexivity. Qed.

Lemma bind_Fault {A B} (m : M A) (k : A -> M B) s f s' :
  m s = Fault f s' -> bind m k s = Fault f s'.
Proof. unfold bind. intros ->. reflexivity. Qed.

Lemma load_live p o s :
  p ≠ nullptr -> heap s !! p = Some o -> load p s = Done o s.
Proof. intros Hp Hs. unfold load. rewrite decide_False by done. by rewrite Hs. Qed.

Lemma load_null s : load nullptr s = Fault NullDereference s.
Proof. reflexivity. Qed.

Lemma load_dangling p s :
  p ≠ nullptr -> heap s !! p = None -> load p s = Fault (UseAfterFree p) s.
Proof. intros Hp Hs. unfold load. rewrite decide_False by done. by rewrite Hs. Qed.

Lemma after_nil s : after s (heap s) [] = s.
Proof. destruct s. unfold after. simpl. by rewrite app_nil_r. Qed.

Lemma after_after s h es h' es' :
  after (after s h es) h' es' = after s h' (es ++ es').
Proof. unfold after. simpl. by rewrite app_assoc. Qed.

Lemma emit_after e s : emit e s = Done tt (after s (heap s) [e]).
Proof. reflexivity. Qed.

(** ** Teardown *)

Section Teardown.
Import ConversationsClientImpl.

(** C4. Every release operation called with the null handle returns
    normally, leaves the heap as it was and makes no call besides its
    entry log line: no destroy, no reset, no mark, no delete. *)
Theorem release_null_noop (s : state) :
  freeNativeHandle 0 s
    = Done tt (after s (heap s) [log_signal "freeNativeHandle"])
  /\ Room.nativeRelease 0 s
    = Done tt (after s (heap s)
                 [log_platform "Java_com_twilio_video_Room_nativeRelease"])
  /\ Room.InternalRoomListenerHandle.nativeRelease 0 s
    = Done tt (after s (heap s) [log_platform "Free AndroidRoomObserver"])
  /\ Room.InternalStatsListenerHandle.nativeRelease 0 s
    = Done tt (after s (heap s) [log_platform "Free AndroidStatsObserver"]).
Proof. repeat split. Qed.

Lemma freeNativeHandle_live (s : state) (h target : pointer) :
  h ≠ nullptr ->
  heap s !! h = Some (TSCEndpointPtr target) ->
  freeNativeHandle h s
    = Done tt (after s (delete h (heap s))
                 [log_signal "freeNativeHandle"; SdkDestroyEndpoint target;
                  Reset h; Delete h]).
Proof.
  intros Hh Hlive.
  unfold freeNativeHandle, reset. exec.
  rewrite delete_insert_eq. by same_state.
Qed.

Lemma freeNativeHandle_dangling (s : state) (h : pointer) :
  h ≠ nullptr ->
  heap s !! h = None ->
  freeNativeHandle h s
    = Fault (UseAfterFree h) (after s (heap s) [log_signal "freeNativeHandle"]).
Proof. intros Hh Hfreed. unfold freeNativeHandle. by exec. Qed.

(** C6. Freeing a live endpoint handle asks the SDK singleton to
    destroy the endpoint, then resets the smart pointer, then deletes
    the handle object, in this order, and returns. *)
Theorem freeNativeHandle_steps (s : state) (h target : pointer) :
  h ≠ nullptr ->
  heap s !! h = Some (TSCEndpointPtr target) ->
  freeNativeHandle h s
    = Done tt (after s (delete h (heap s))
                 [log_signal "freeNativeHandle"; SdkDestroyEndpoint target;
                  Reset h; Delete h]).
Proof. apply freeNativeHandle_live. Qed.

(** C8. [listen] on a live handle of a non-empty endpoint pointer
    forwards to [registerEndpoint(true, true)] and returns. *)
Theorem listen_registers (s : state) (h endpoint : pointer) :
  h ≠ nullptr ->
  endpoint ≠ nullptr ->
  heap s !! h = Some (TSCEndpointPtr endpoint) ->
  listen h s
    = Done tt (after s (heap s)
                 [log_signal "listen"; RegisterEndpoint endpoint true true]).
Proof.
  intros Hh He Hlive.
  unfold listen. exec. by same_state.
Qed.

(** C10. [nativeDisconnect] and [nativeGetStats] read through the room
    context handle without a null check: on the null handle both stop
    with a null dereference right after their log line, whereas
    [nativeRelease] on the null handle returns. *)
Theorem room_calls_need_handle (s : state) (observer : jlong) :
  Room.nativeDisconnect 0 s
    = Fault NullDereference
        (after s (heap s)
           [log_platform "Java_com_twilio_video_Room_nativeDisconnect"])
  /\ Room.nativeGetStats 0 observer s
    = Fault NullDereference
        (after s (heap s)
           [log_platform "Java_com_twilio_video_Room_nativeGetStats"])
  /\ returns (Room.nativeRelease 0 s).
Proof. repeat split. unfold returns. eauto. Qed.

End Teardown.

(** ** Observer adapters *)

Section Observers.

Implicit Types (k : listener_kind) (s : state) (h : pointer) (j : jobject).

Lemma listener_mark k s h j deleted :
  h ≠ nullptr ->
  heap s !! h = Some (adapter k j deleted) ->
  setObserverDeleted h s
    = Done tt (after s (<[h := adapter k j true]> (heap s))
                 [SetObserverDeleted h]).
Proof. intros Hh Hlive. destruct k; by exec. Qed.

Lemma listener_release_live k s h j deleted :
  h ≠ nullptr ->
  heap s !! h = Some (adapter k j deleted) ->
  listener_nativeRelease k h s
    = Done tt (after s (delete h (heap s))
                 [release_entry k; SetObserverDeleted h; Delete h]).
Proof.
  intros Hh Hlive.
  destruct k; simpl in *;
    [unfold Room.InternalRoomListenerHandle.nativeRelease
    |unfold Room.InternalStatsListenerHandle.nativeRelease];
    exec; rewrite delete_insert_eq; by same_state.
Qed.

Lemma listener_release_dangling k s h :
  h ≠ nullptr ->
  heap s !! h = None ->
  listener_nativeRelease k h s
    = Fault (UseAfterFree h) (after s (heap s) [release_entry k]).
Proof.
  intros Hh Hfreed.
  destruct k; simpl;
    [unfold Room.InternalRoomListenerHandle.nativeRelease
    |unfold Room.InternalStatsListenerHandle.nativeRelease];
    by exec.
Qed.

Lemma listener_create k alloc j s :
  listener_nativeCreate k alloc j s
    = Done (alloc (heap s))
        (after s (<[alloc (heap s) := adapter k j false]> (heap s))
           [log_platform ("Create " +:+ listener_name k);
            New (alloc (heap s))]).
Proof.
  destruct k; simpl;
    [unfold Room.InternalRoomListenerHandle.nativeCreate
    |unfold Room.InternalStatsListenerHandle.nativeCreate];
    exec; by same_state.
Qed.

(** A dispatch on a live, unmarked adapter reaches the listener. *)
Lemma dispatch_live k s h j :
  h ≠ nullptr ->
  heap s !! h = Some (adapter k j false) ->
  dispatch h s = Done tt (after s (heap s) [Callback j]).
Proof. intros Hh Hlive. destruct k; by exec. Qed.

Lemma dispatch_marked k s h j :
  h ≠ nullptr ->
  heap s !! h = Some (adapter k j true) ->
  dispatch h s = Done tt s.
Proof. intros Hh Hlive. destruct k; by exec. Qed.

Lemma dispatch_freed s h :
  h ≠ nullptr ->
  heap s !! h = None ->
  dispatch h s = Fault (UseAfterFree h) s.
Proof. intros Hh Hfreed. by exec. Qed.

End Observers.

(** ** Marshalling of the option array *)

Section Marshalling.
Import ConversationsClientImpl.

Lemma drop_lookup_head (l : list string) n x rest :
  drop n l = x :: rest -> l !! n = Some x /\ drop (S n) l = rest.
Proof.
  intros Hd. split.
  - rewrite <- (Nat.add_0_r n), <- lookup_drop, Hd. done.
  - replace (S n) with (n + 1)%nat by lia.
    rewrite <- drop_drop, Hd. done.
Qed.

Lemma read_inside (arr : jobjectArray) n x s :
  arr !! n = Some x ->
  env_GetObjectArrayElement arr (Z.of_nat n) s
    = Done (Some x) (after s (heap s) [GetObjectArrayElement (Z.of_nat n)]).
Proof.
  intros Hx. unfold env_GetObjectArrayElement. exec.
  rewrite decide_True by lia. rewrite Nat2Z.id, Hx. done.
Qed.

Lemma read_outside (arr : jobjectArray) n s :
  arr !! n = None ->
  env_GetObjectArrayElement arr (Z.of_nat n) s
    = Done None (after s (heap s)
                   [GetObjectArrayElement (Z.of_nat n);
                    Throw ArrayIndexOutOfBoundsException]).
Proof.
  intros Hx. unfold env_GetObjectArrayElement. exec.
  rewrite decide_True by lia. rewrite Nat2Z.id, Hx. simpl.
  by same_state.
Qed.

(** The loop against its closed form, from any index on. *)
Lemma marshal_loop_spec (arr : jobjectArray) :
  forall fuel n opts s,
    (length (drop n arr) < fuel)%nat ->
    marshal_loop fuel arr (GetArrayLength arr) (Z.of_nat n) opts s
    = let rest := drop n arr in
      let s' := after s (heap s) (marshal_events (Z.of_nat n) rest) in
      if Nat.even (length rest)
      then Done (foldl assign opts (pairs rest)) s'
      else Fault NullString s'.
Proof.
  induction fuel as [|fuel IH]; intros n opts s Hfuel; [lia|].
  cbn zeta. destruct (drop n arr) as [|k [|v rest]] eqn:Hd.
  - apply drop_nil_inv in Hd. simpl.
    rewrite decide_False by (unfold GetArrayLength; lia).
    by rewrite after_nil.
  - apply drop_lookup_head in Hd as [Hk Hd].
    apply drop_nil_inv in Hd.
    assert (arr !! S n = None) as Hv by (apply lookup_ge_None; lia).
    apply lookup_lt_Some in Hk as Hlt. simpl.
    rewrite decide_True by (unfold GetArrayLength; lia).
    rewrite (bind_Done _ _ _ _ _ (read_inside _ _ _ _ Hk)).
    replace (Z.of_nat n + 1) with (Z.of_nat (S n)) by lia.
    rewrite (bind_Done _ _ _ _ _ (read_outside _ _ _ Hv)).
    unfold JavaToStdString. exec. by same_state.
  - apply drop_lookup_head in Hd as [Hk Hd].
    apply drop_lookup_head in Hd as [Hv Hd].
    apply lookup_lt_Some in Hk as Hlt.
    change (marshal_loop (S fuel) arr (GetArrayLength arr) (Z.of_nat n) opts s)
      with ((if decide (Z.of_nat n < GetArrayLength arr) then
               do jKey <- env_GetObjectArrayElement arr (Z.of_nat n);
               do jValue <- env_GetObjectArrayElement arr (Z.of_nat n + 1);
               do key <- JavaToStdString jKey;
               do value <- JavaToStdString jValue;
               env_DeleteLocalRef jKey;;
               env_DeleteLocalRef jValue;;
               marshal_loop fuel arr (GetArrayLength arr)
                 (Z.of_nat n + 1 + 1) (<[key := value]> opts)
             else ret opts) s).
    rewrite decide_True by (unfold GetArrayLength; lia).
    rewrite (bind_Done _ _ _ _ _ (read_inside _ _ _ _ Hk)).
    replace (Z.of_nat n + 1) with (Z.of_nat (S n)) by lia.
    rewrite (bind_Done _ _ _ _ _ (read_inside _ _ _ _ Hv)).
    replace (Z.of_nat (S n) + 1) with (Z.of_nat (S (S n))) by lia.
    unfold JavaToStdString, env_DeleteLocalRef.
    rewrite (bind_Done _ _ _ _ _ eq_refl).
    rewrite (bind_Done _ _ _ _ _ eq_refl).
    rewrite (bind_Done _ _ _ _ _ (emit_after _ _)).
    rewrite (bind_Done _ _ _ _ _ (emit_after _ _)).
    rewrite IH by (rewrite Hd; simpl in Hfuel; lia).
    rewrite Hd. cbn zeta. rewrite !after_after. simpl.
    replace (Z.of_nat n + 2) with (Z.of_nat (S (S n))) by lia.
    replace (Z.of_nat n + 1) with (Z.of_nat (S n)) by lia.
    destruct (Nat.even (length rest)); reflexivity.
Qed.

Lemma marshal_options_spec (arr : jobjectArray) (s : state) :
  marshal_options arr s
  = let s' := after s (heap s) (marshal_events 0 arr) in
    if Nat.even (length arr)
    then Done (foldl assign ∅ (pairs arr)) s'
    else Fault NullString s'.
Proof.
  unfold marshal_options.
  rewrite (marshal_loop_spec arr (S (length arr)) 0 ∅ s); [done|].
  rewrite drop_0. lia.
Qed.

(** Induction two entries at a time. *)
Lemma pair_ind (P : list string -> Prop) :
  P [] -> (forall x, P [x]) -> (forall k v l, P l -> P (k :: v :: l)) ->
  forall l, P l.
Proof.
  intros Hnil Hone Hstep.
  assert (forall l, P l /\ forall x, P (x :: l)) as H.
  { induction l as [|y l [IH1 IH2]]; split; auto. }
  intros l. apply H.
Qed.

Lemma pairs_lookup (arr : list string) j k v :
  pairs arr !! j = Some (k, v)
  <-> arr !! (2 * j)%nat = Some k /\ arr !! (2 * j + 1)%nat = Some v.
Proof.
  revert j. induction arr as [|x|k0 v0 arr IH] using pair_ind; intros j.
  - simpl. rewrite !lookup_nil. split; [done|]. by intros [? _].
  - simpl. rewrite lookup_nil. split; [done|]. intros [_ H].
    apply lookup_lt_Some in H. simpl in H. lia.
  - destruct j as [|j].
    + simpl. split.
      * by intros [= -> ->].
      * by intros [[= ->] [= ->]].
    + replace (2 * S j)%nat with (S (S (2 * j))) by lia.
      replace (S (S (2 * j)) + 1)%nat with (S (S (2 * j + 1))) by lia.
      simpl. apply IH.
Qed.

Lemma pairs_length (arr : list string) :
  length (pairs arr) = (length arr / 2)%nat.
Proof.
  induction arr as [|x|k v arr IH] using pair_ind; [done..|].
  cbn [pairs length]. rewrite IH.
  change (S (S (length arr))) with (1 * 2 + length arr)%nat.
  rewrite Nat.div_add_l by lia. lia.
Qed.

Lemma key_at_even_index (arr : list string) k :
  Nat.even (length arr) = true ->
  k ∈ keys arr <-> exists j, arr !! (2 * j)%nat = Some k.
Proof.
  intros Heven. unfold keys. rewrite list_elem_of_fmap. split.
  - intros [[k' v] [-> Hin]]. apply list_elem_of_lookup in Hin as [j Hj].
    exists j. by apply pairs_lookup in Hj as [? _].
  - intros [j Hj].
    assert (is_Some (arr !! (2 * j + 1)%nat)) as [v Hv].
    { apply lookup_lt_is_Some. apply lookup_lt_Some in Hj.
      apply Nat.even_spec in Heven as [c Hc]. lia. }
    exists (k, v). split; [done|]. apply list_elem_of_lookup. exists j.
    by apply pairs_lookup.
Qed.

Lemma foldl_assign_other (ps : list (string * string)) :
  forall (m : TSCOptions) k, k ∉ ps.*1 -> foldl assign m ps !! k = m !! k.
Proof.
  induction ps as [|[k0 v0] ps IH]; intros m k Hk; [done|].
  simpl in *. apply not_elem_of_cons in Hk as [Hne Hk].
  rewrite IH by done. unfold assign. simpl. by rewrite lookup_insert_ne.
Qed.

(** The binding of a key is the value of its last pair. *)
Lemma foldl_assign_last (ps : list (string * string)) :
  forall (m : TSCOptions) j k v,
    ps !! j = Some (k, v) ->
    (forall j' v', (j < j')%nat -> ps !! j' ≠ Some (k, v')) ->
    foldl assign m ps !! k = Some v.
Proof.
  induction ps as [|[k0 v0] ps IH]; intros m j k v Hj Hlast; [done|].
  destruct j as [|j]; simpl in *.
  - injection Hj as -> ->. rewrite foldl_assign_other.
    + unfold assign. simpl. by rewrite lookup_insert_eq.
    + intros Hin. apply list_elem_of_fmap in Hin as [[k' v'] [Heq Hin]].
      simpl in Heq. subst k'. apply list_elem_of_lookup in Hin as [i Hi].
      apply (Hlast (S i) v'); [lia|done].
  - apply (IH _ j); [done|]. intros j' v' Hlt. apply (Hlast (S j') v'). lia.
Qed.

Lemma foldl_assign_dom (ps : list (string * string)) :
  forall m : TSCOptions,
    dom (foldl assign m ps) = dom m ∪ list_to_set ps.*1.
Proof.
  induction ps as [|[k v] ps IH]; intros m; simpl.
  - by rewrite (right_id_L ∅ (∪)).
  - rewrite IH. unfold assign. simpl.
    rewrite dom_insert_L.
    by rewrite (assoc_L (∪) (dom m)), (comm_L (∪) (dom m)).
Qed.

Lemma size_list_to_set_dups (l : list string) :
  size (list_to_set l : gset string) = length (remove_dups l).
Proof.
  rewrite <- (size_list_to_set (C := gset string) (remove_dups l))
    by apply NoDup_remove_dups.
  f_equal. apply set_eq. intros x.
  by rewrite !elem_of_list_to_set, elem_of_remove_dups.
Qed.

Lemma remove_dups_le (l : list string) :
  (length (remove_dups l) <= length l)%nat.
Proof.
  induction l as [|x l IH]; simpl; [lia|].
  case_decide; simpl; lia.
Qed.

Lemma remove_dups_NoDup (l : list string) : NoDup l -> remove_dups l = l.
Proof.
  induction 1 as [|x l Hx _ IH]; simpl; [done|].
  case_decide; [done|]. by rewrite IH.
Qed.

Lemma foldl_assign_size (ps : list (string * string)) :
  size (foldl assign (∅ : TSCOptions) ps) = length (remove_dups ps.*1).
Proof.
  rewrite <- size_dom, foldl_assign_dom, dom_empty_L, (left_id_L ∅ (∪)).
  apply size_list_to_set_dups.
Qed.

(** C2, as the code has it.  For an option array of even length the
    loop returns a mapping in which every key is an even-indexed entry,
    bound to the odd-indexed entry that follows its last occurrence
    (last write wins).  The mapping has one entry per distinct key: at
    most [length / 2] entries, and exactly [length / 2] when no key
    occurs twice. *)
Theorem marshal_options_last_write_wins (arr : jobjectArray) (s : state) :
  Nat.even (length arr) = true ->
  exists options : TSCOptions,
    marshal_options arr s
      = Done options (after s (heap s) (marshal_events 0 arr))
    /\ (forall j k v,
          arr !! (2 * j)%nat = Some k ->
          arr !! (2 * j + 1)%nat = Some v ->
          (forall j', (j < j')%nat -> arr !! (2 * j')%nat ≠ Some k) ->
          options !! k = Some v)
    /\ (forall k,
          is_Some (options !! k) <-> exists j, arr !! (2 * j)%nat = Some k)
    /\ size options = length (remove_dups (keys arr))
    /\ (size options <= length arr / 2)%nat
    /\ (NoDup (keys arr) -> size options = (length arr / 2)%nat).
Proof.
  intros Heven. exists (foldl assign ∅ (pairs arr)).
  split; [|split; [|split; [|split; [|split]]]].
  - rewrite marshal_options_spec. cbn zeta. by rewrite Heven.
  - intros j k v Hk Hv Hlast. apply (foldl_assign_last _ _ j).
    + by apply pairs_lookup.
    + intros j' v' Hlt Hj'. apply pairs_lookup in Hj' as [Hk' _].
      by apply (Hlast j').
  - intros k. rewrite <- elem_of_dom, foldl_assign_dom, dom_empty_L.
    rewrite (left_id_L ∅ (∪)), elem_of_list_to_set.
    by apply key_at_even_index.
  - apply foldl_assign_size.
  - rewrite foldl_assign_size, <- pairs_length.
    etrans; [apply remove_dups_le|]. unfold keys. by rewrite length_fmap.
  - intros Hnodup. rewrite foldl_assign_size, remove_dups_NoDup by done.
    unfold keys. by rewrite length_fmap, pairs_length.
Qed.

(** C2 as stated fails: a key written twice leaves one entry where
    [length / 2] would be two. *)
Lemma duplicate_key_one_entry :
  exists (options : TSCOptions) s,
    run (marshal_options ["a"; "1"; "a"; "2"]) = Done options s
    /\ options !! "a" = Some "2"
    /\ size options = 1%nat
    /\ size options ≠ (length ["a"; "1"; "a"; "2"] / 2)%nat.
Proof.
  exists (<["a" := "2"]> ∅),
    (after empty_state ∅ (marshal_events 0 ["a"; "1"; "a"; "2"])).
  repeat split; vm_compute; congruence.
Qed.

Lemma marshal_events_even (arr : list string) :
  forall i,
    Nat.even (length arr) = true -> 0 <= i ->
    Forall (read_in_bounds (i + Z.of_nat (length arr))) (marshal_events i arr)
    /\ Forall (fun e => is_throw e = false) (marshal_events i arr)
    /\ count is_marshalling (marshal_events i arr) = (2 * length arr)%nat.
Proof.
  induction arr as [|x|k v arr IH] using pair_ind; intros i Heven Hi.
  - simpl. repeat split; constructor.
  - discriminate.
  - destruct (IH (i + 2)) as (Hin & Hthrow & Hcount); [done|lia|].
    cbn [marshal_events]. split; [|split].
    + repeat (constructor; [simpl; try done; simpl length; lia|]).
      replace (i + Z.of_nat (length (k :: v :: arr)))
        with (i + 2 + Z.of_nat (length arr)) by (simpl length; lia).
      done.
    + by repeat (constructor; [done|]).
    + unfold count in *. simpl. rewrite Hcount. lia.
Qed.


Lemma marshal_events_no_factory (arr : list string) :
  forall i, Forall (fun e => is_factory_call e = false) (marshal_events i arr).
Proof.
  induction arr as [|x|k v arr IH] using pair_ind; intros i; simpl.
  - constructor.
  - by repeat constructor.
  - by repeat (constructor; [done|]).
Qed.

End Marshalling.

(** ** Endpoint creation *)

Section CreateEndpoint.
Import ConversationsClientImpl.

Variable alloc : gmap Z object -> pointer.
Variable sdk_createEndpoint : TSCOptions -> pointer -> pointer -> pointer.

Implicit Types (j_accessMgr : JavaAccessManager) (arr : jobjectArray).
Implicit Types (observer : jlong) (s : state).

(** A call turned down after a well-formed array has been marshalled. *)
Lemma createEndpoint_rejected j_accessMgr arr observer s es :
  Nat.even (length arr) = true ->
  rejected j_accessMgr observer s es ->
  createEndpoint alloc sdk_createEndpoint j_accessMgr arr observer s
  = Done 0 (after s (heap s)
              (log_signal "createEndpoint" :: marshal_events 0 arr ++ es)).
Proof.
  intros Heven Hrej. unfold createEndpoint, TS_CORE_LOG_MODULE.
  rewrite (bind_Done _ _ _ _ _ (emit_after _ _)).
  rewrite (bind_Done (marshal_options arr) _ _
             (foldl assign ∅ (pairs arr))
             (after (after s (heap s) [log_signal "createEndpoint"])
                (heap s) (marshal_events 0 arr)));
    [|rewrite marshal_options_spec; cbn zeta; by rewrite Heven].
  rewrite after_after.
  destruct Hrej as [Hobs|Hobs Ham|Hobs Ham Htoken];
    unfold getNativeAccessMgrFromJava; exec; by same_state.
Qed.

(** A call whose array has odd length stops inside the loop. *)
Lemma createEndpoint_odd j_accessMgr arr observer s :
  Nat.even (length arr) = false ->
  createEndpoint alloc sdk_createEndpoint j_accessMgr arr observer s
  = Fault NullString
      (after s (heap s) (log_signal "createEndpoint" :: marshal_events 0 arr)).
Proof.
  intros Hodd. unfold createEndpoint, TS_CORE_LOG_MODULE.
  rewrite (bind_Done _ _ _ _ _ (emit_after _ _)).
  rewrite (bind_Fault (marshal_options arr) _ _ NullString
             (after (after s (heap s) [log_signal "createEndpoint"])
                (heap s) (marshal_events 0 arr)));
    [|rewrite marshal_options_spec; cbn zeta; by rewrite Hodd].
  by rewrite after_after.
Qed.

Lemma rejected_no_factory j_accessMgr observer s es :
  rejected j_accessMgr observer s es ->
  Forall (fun e => is_factory_call e = false) es
  /\ Forall (fun e => is_throw e = false) es
  /\ Forall (fun e => is_marshalling e = false) es.
Proof. destruct 1; repeat split; by repeat constructor. Qed.

Lemma invalid_arguments_rejected j_accessMgr observer s :
  observer = 0
  \/ getNativeHandle j_accessMgr = 0
  \/ heap s !! getNativeHandle j_accessMgr = Some (AccessManager "") ->
  exists es, rejected j_accessMgr observer s es.
Proof.
  intros Hbad.
  destruct (decide (observer = 0)) as [Hobs|Hobs];
    [eexists; by apply observer_null|].
  destruct (decide (getNativeHandle j_accessMgr = 0)) as [Ham|Ham];
    [eexists; by apply access_manager_null|].
  destruct Hbad as [?|[?|Htoken]]; [done..|].
  eexists; by apply token_empty.
Qed.

(** C7, as the code has it.  The option mapping is built first: a call
    with an array of even length that is then turned down has read and
    released every array entry, has the mapping in hand, and only after
    that runs the validation, which neither touches the array nor
    calls the factory. *)
Theorem createEndpoint_marshals_then_validates j_accessMgr arr observer s es :
  Nat.even (length arr) = true ->
  rejected j_accessMgr observer s es ->
  marshal_options arr (after s (heap s) [log_signal "createEndpoint"])
    = Done (foldl assign ∅ (pairs arr))
        (after s (heap s) (log_signal "createEndpoint" :: marshal_events 0 arr))
  /\ createEndpoint alloc sdk_createEndpoint j_accessMgr arr observer s
    = Done 0 (after s (heap s)
                (log_signal "createEndpoint" :: marshal_events 0 arr ++ es))
  /\ count is_marshalling (marshal_events 0 arr) = (2 * length arr)%nat
  /\ Forall (fun e => is_marshalling e = false) es
  /\ Forall (fun e => is_factory_call e = false) (marshal_events 0 arr ++ es).
Proof.
  intros Hlen Hrej.
  destruct (rejected_no_factory _ _ _ _ Hrej) as (Hfac & _ & Hquiet).
  destruct (marshal_events_even arr 0 Hlen) as (_ & _ & Hcount); [lia|].
  split; [|split; [|split; [|split]]]; try done.
  - rewrite marshal_options_spec. cbn zeta. rewrite Hlen.
    by rewrite after_after.
  - by apply createEndpoint_rejected.
  - apply Forall_app. split; [|done]. apply marshal_events_no_factory.
Qed.


(** An accepted call: well-formed array, live observer pointer, live
    access manager with a non-empty token, and a sound allocator. *)
Lemma createEndpoint_accepted j_accessMgr arr observer s target token :
  alloc (heap s) ≠ nullptr ->
  heap s !! alloc (heap s) = None ->
  Nat.even (length arr) = true ->
  observer ≠ 0 ->
  heap s !! observer = Some (TSCEndpointObserverPtr target) ->
  getNativeHandle j_accessMgr ≠ 0 ->
  heap s !! getNativeHandle j_accessMgr = Some (AccessManager token) ->
  token ≠ "" ->
  let h := alloc (heap s) in
  let options := foldl assign ∅ (pairs arr) in
  let endpoint :=
    sdk_createEndpoint options (getNativeHandle j_accessMgr) target in
  createEndpoint alloc sdk_createEndpoint j_accessMgr arr observer s
  = Done h
      (after s (<[h := TSCEndpointPtr endpoint]> (heap s))
         (log_signal "createEndpoint"
            :: marshal_events 0 arr
            ++ [CallLongMethod "getNativeHandle";
                LogDebug ("access token is:" +:+ token);
                New h;
                SdkCreateEndpoint options (getNativeHandle j_accessMgr)
                  target])).
Proof.
  intros Hnonnull Hfresh Hlen Hobs Hobserver Ham Hmanager Htoken h options
    endpoint.
  assert (h ≠ observer) as Hne.
  { intros Heq. rewrite <- Heq in Hobserver. unfold h in *. congruence. }
  unfold createEndpoint, TS_CORE_LOG_MODULE.
  rewrite (bind_Done _ _ _ _ _ (emit_after _ _)).
  rewrite (bind_Done (marshal_options arr) _ _ options
             (after (after s (heap s) [log_signal "createEndpoint"])
                (heap s) (marshal_events 0 arr)));
    [|rewrite marshal_options_spec; cbn zeta; by rewrite Hlen].
  rewrite after_after. unfold getNativeAccessMgrFromJava. exec.
  fold h. exec. rewrite insert_insert_eq. by same_state.
Qed.

End CreateEndpoint.

(** ** Lifecycle of a handle *)

Section Lifecycle.
Import ConversationsClientImpl.

Variable alloc : gmap Z object -> pointer.
Variable sdk_createEndpoint : TSCOptions -> pointer -> pointer -> pointer.

(** [new] hands back a non-null address that is not in use. *)
Hypothesis alloc_nonnull : forall m, alloc m ≠ nullptr.
Hypothesis alloc_fresh : forall m, m !! alloc m = None.

Lemma count_one_delete (h : pointer) (before : list event) :
  Forall (fun e => is_delete h e = false) before ->
  count (is_delete h) (before ++ [Delete h]) = 1%nat.
Proof.
  intros Hbefore. unfold count. rewrite List.filter_app, length_app.
  simpl. rewrite bool_decide_eq_true_2 by done. simpl.
  induction Hbefore as [|e es He _ IH]; [done|]. simpl. by rewrite He.
Qed.

(** C3, as the code has it.  A handle obtained from [createEndpoint]
    or from a listener [nativeCreate] is not null; passing it to the
    matching release returns after exactly one destroy call (one
    [destroyEndpoint] and one delete of the handle object for an
    endpoint, one delete for a listener) and the handle is dead.  The
    layer keeps no record of that: a second release with the same
    value passes the null check and reads the freed object. *)
Theorem created_handle_released_once
    (k : listener_kind) (j : jobject) (j_accessMgr : JavaAccessManager)
    (arr : jobjectArray) (observer : jlong) (s : state)
    (target : pointer) (token : string) :
  Nat.even (length arr) = true ->
  observer ≠ 0 ->
  heap s !! observer = Some (TSCEndpointObserverPtr target) ->
  getNativeHandle j_accessMgr ≠ 0 ->
  heap s !! getNativeHandle j_accessMgr = Some (AccessManager token) ->
  token ≠ "" ->
  endpoint_lifecycle alloc sdk_createEndpoint j_accessMgr arr observer s
  /\ listener_lifecycle alloc k j s.
Proof.
  intros Hlen Hobs Hobserver Ham Hmanager Htoken.
  unfold endpoint_lifecycle, listener_lifecycle. split.
  - eexists _, _, _. split.
    { by apply (createEndpoint_accepted alloc sdk_createEndpoint
                  j_accessMgr arr observer s target token). }
    split; [done|]. cbn zeta.
    split; [|split; [|split; [|split]]].
    + apply freeNativeHandle_live; [done|]. simpl. by rewrite lookup_insert_eq.
    + done.
    + apply (count_one_delete _ [_; _; _]). by repeat constructor.
    + simpl. by rewrite lookup_delete_eq.
    + apply freeNativeHandle_dangling; [done|]. simpl.
      by rewrite lookup_delete_eq.
  - eexists _, _. split; [apply listener_create|].
    split; [done|]. cbn zeta.
    split; [|split; [|split]].
    + apply (listener_release_live k _ _ j false); [done|]. simpl.
      by rewrite lookup_insert_eq.
    + apply (count_one_delete _ [_; _]). destruct k; by repeat constructor.
    + simpl. by rewrite lookup_delete_eq.
    + apply listener_release_dangling; [done|]. simpl.
      by rewrite lookup_delete_eq.
Qed.

End Lifecycle.

(** ** The bump allocator is sound *)

Lemma bump_alloc_above (m : gmap Z object) :
  0 <= map_fold (fun k _ acc => Z.max k acc) 0 m
  /\ forall k, is_Some (m !! k) -> k <= map_fold (fun k _ acc => Z.max k acc) 0 m.
Proof.
  apply (map_fold_weak_ind
           (fun r m => 0 <= r /\ forall k, is_Some (m !! k) -> k <= r)).
  - split; [done|]. intros k [x Hx]. by rewrite lookup_empty in Hx.
  - intros i x m' r Hi [Hr Hbound]. split; [lia|]. intros k Hk.
    destruct (decide (k = i)) as [->|Hne]; [lia|].
    rewrite lookup_insert_ne in Hk by done. specialize (Hbound k Hk). lia.
Qed.

Lemma bump_alloc_nonnull (m : gmap Z object) : bump_alloc m ≠ nullptr.
Proof. unfold bump_alloc, nullptr. destruct (bump_alloc_above m). lia. Qed.

Lemma bump_alloc_fresh (m : gmap Z object) : m !! bump_alloc m = None.
Proof.
  destruct (m !! bump_alloc m) eqn:Hm; [|done].
  destruct (bump_alloc_above m) as [_ Hbound].
  specialize (Hbound (bump_alloc m) (mk_is_Some _ _ Hm)).
  unfold bump_alloc in Hbound. lia.
Qed.

(** ** Concrete runs *)

Section ConcreteRuns.
Import ConversationsClientImpl.

(** C7 as stated fails: a call turned down for its null observer
    handle has already read, converted and released both array
    entries. *)
Lemma rejected_call_has_marshalled :
  let r := run (createEndpoint bump_alloc sdk_stub
                  {| getNativeHandle := 0 |} ["k"; "v"] 0) in
  r = Done 0
        {| heap := ∅;
           trace := [log_signal "createEndpoint"; GetObjectArrayElement 0;
                     GetObjectArrayElement 1; DeleteLocalRef (Some "k");
                     DeleteLocalRef (Some "v");
                     log_error "nativeEndpointObserver is null"] |}
  /\ count is_marshalling (trace_of r) = 4%nat
  /\ count is_marshalling (trace_of r) ≠ 0%nat.
Proof. cbn zeta. repeat split; vm_compute; congruence. Qed.

(** C3 as stated fails in its second half: releasing the same handle
    value twice is not caught.  The second call passes the null check
    and touches the freed object, for each of the three handle types. *)
Lemma second_release_reads_freed_handle :
  let room :=
    run (do h <- Room.InternalRoomListenerHandle.nativeCreate bump_alloc 9;
         Room.InternalRoomListenerHandle.nativeRelease h;;
         Room.InternalRoomListenerHandle.nativeRelease h) in
  let stats :=
    run (do h <- Room.InternalStatsListenerHandle.nativeCreate bump_alloc 9;
         Room.InternalStatsListenerHandle.nativeRelease h;;
         Room.InternalStatsListenerHandle.nativeRelease h) in
  let endpoint :=
    (do h <- createEndpoint bump_alloc sdk_stub {| getNativeHandle := 16 |}
               ["a"; "1"] 32;
     freeNativeHandle h;;
     freeNativeHandle h) sample_state in
  room = Fault (UseAfterFree 1)
           {| heap := ∅;
              trace := [log_platform "Create AndroidRoomObserver"; New 1;
                        log_platform "Free AndroidRoomObserver";
                        SetObserverDeleted 1; Delete 1;
                        log_platform "Free AndroidRoomObserver"] |}
  /\ stats = Fault (UseAfterFree 1)
           {| heap := ∅;
              trace := [log_platform "Create AndroidStatsObserver"; New 1;
                        log_platform "Free AndroidStatsObserver";
                        SetObserverDeleted 1; Delete 1;
                        log_platform "Free AndroidStatsObserver"] |}
  /\ (exists s, endpoint = Fault (UseAfterFree 57) s
               /\ count is_sdk_destroy (trace s) = 1%nat
               /\ count (is_delete 57) (trace s) = 1%nat)
  /\ ¬ returns room /\ ¬ returns stats /\ ¬ returns endpoint.
Proof.
  cbn zeta. split; [vm_compute; reflexivity|].
  split; [vm_compute; reflexivity|].
  split; [eexists; split; [vm_compute; reflexivity|]; split; vm_compute; reflexivity|].
  repeat split; intros (a & s & Hr); vm_compute in Hr; discriminate.
Qed.

(** With an allocator that reuses addresses, a stale handle value can
    name a newer adapter: the late release then deletes that one. *)
Example stale_handle_releases_newer_adapter :
  run (do old <- Room.InternalRoomListenerHandle.nativeCreate bump_alloc 9;
       Room.InternalRoomListenerHandle.nativeRelease old;;
       do new <- Room.InternalRoomListenerHandle.nativeCreate bump_alloc 10;
       Room.InternalRoomListenerHandle.nativeRelease old;;
       dispatch new)
  = Fault (UseAfterFree 1)
      {| heap := ∅;
         trace := [log_platform "Create AndroidRoomObserver"; New 1;
                   log_platform "Free AndroidRoomObserver";
                   SetObserverDeleted 1; Delete 1;
                   log_platform "Create AndroidRoomObserver"; New 1;
                   log_platform "Free AndroidRoomObserver";
                   SetObserverDeleted 1; Delete 1] |}.
Proof. vm_compute. reflexivity. Qed.

(** A callback that read the flag before the mark still completes,
    here after the adapter has been deleted. *)
Example callback_in_flight_completes :
  (do target <- dispatch_check 40;
   Room.InternalRoomListenerHandle.nativeRelease 40;;
   dispatch_deliver target) sample_state
  = Done tt
      (after sample_state (delete 40 (heap sample_state))
         [log_platform "Free AndroidRoomObserver"; SetObserverDeleted 40;
          Delete 40; Callback 9]).
Proof. vm_compute. reflexivity. Qed.

(** The room calls on a live room context. *)
Example room_calls_forward :
  Room.nativeDisconnect 56 sample_state
    = Done tt (after sample_state (heap sample_state)
                 [log_platform "Java_com_twilio_video_Room_nativeDisconnect";
                  Disconnect 500])
  /\ Room.nativeGetStats 56 48 sample_state
    = Done tt (after sample_state (heap sample_state)
                 [log_platform "Java_com_twilio_video_Room_nativeGetStats";
                  GetStats 500 48])
  /\ Room.nativeRelease 56 sample_state
    = Done tt (after sample_state (delete 56 (heap sample_state))
                 [log_platform "Java_com_twilio_video_Room_nativeRelease";
                  Delete 56]).
Proof. repeat split; vm_compute; reflexivity. Qed.

(** Releasing a room context twice deletes a dead object. *)
Example room_released_twice :
  (Room.nativeRelease 56;; Room.nativeRelease 56) sample_state
  = Fault (DoubleFree 56)
      (after sample_state (delete 56 (heap sample_state))
         [log_platform "Java_com_twilio_video_Room_nativeRelease"; Delete 56;
          log_platform "Java_com_twilio_video_Room_nativeRelease"]).
Proof. vm_compute. reflexivity. Qed.

End ConcreteRuns.

(** ** The theorems at concrete inputs *)

Section Instances.
Import ConversationsClientImpl.

Lemma marshal_options_last_write_wins_witness :
  exists options : TSCOptions,
    marshal_options ["a"; "1"; "b"; "3"; "a"; "2"] empty_state
      = Done options
          (after empty_state ∅
             (marshal_events 0 ["a"; "1"; "b"; "3"; "a"; "2"]))
    /\ options !! "a" = Some "2"
    /\ size options = 2%nat.
Proof.
  destruct (marshal_options_last_write_wins
              ["a"; "1"; "b"; "3"; "a"; "2"] empty_state eq_refl)
    as (options & Hrun & Hlast & _ & Hsize & _).
  exists options. split; [exact Hrun|]. split.
  - apply (Hlast 2%nat "a" "2"); [reflexivity..|].
    intros j' Hlt Hj'. apply lookup_lt_Some in Hj'. simpl in Hj'. lia.
  - rewrite Hsize. reflexivity.
Defined.

Lemma created_handle_released_once_witness :
  endpoint_lifecycle bump_alloc sdk_stub {| getNativeHandle := 16 |}
    ["a"; "1"] 32 sample_state
  /\ listener_lifecycle bump_alloc RoomListener 9 sample_state.
Proof.
  apply (created_handle_released_once bump_alloc sdk_stub
           bump_alloc_nonnull bump_alloc_fresh RoomListener 9
           {| getNativeHandle := 16 |} ["a"; "1"] 32 sample_state 77 "tok").
  - reflexivity.
  - discriminate.
  - reflexivity.
  - discriminate.
  - reflexivity.
  - discriminate.
Defined.

Lemma freeNativeHandle_steps_witness :
  freeNativeHandle 8 sample_state
    = Done tt (after sample_state (delete 8 (heap sample_state))
                 [log_signal "freeNativeHandle"; SdkDestroyEndpoint 4096;
                  Reset 8; Delete 8]).
Proof.
  apply (freeNativeHandle_steps sample_state 8 4096).
  - discriminate.
  - reflexivity.
Defined.

Lemma createEndpoint_marshals_then_validates_witness :
  createEndpoint bump_alloc sdk_stub {| getNativeHandle := 0 |}
    ["k"; "v"] 32 sample_state
    = Done 0
        (after sample_state (heap sample_state)
           (log_signal "createEndpoint"
              :: marshal_events 0 ["k"; "v"]
              ++ [CallLongMethod "getNativeHandle";
                  log_error "AccessManager is null"]))
  /\ count is_marshalling (marshal_events 0 ["k"; "v"]) = 4%nat.
Proof.
  assert (rejected {| getNativeHandle := 0 |} 32 sample_state
            [CallLongMethod "getNativeHandle";
             log_error "AccessManager is null"]) as Hrej.
  { apply access_manager_null; [discriminate | reflexivity]. }
  destruct (createEndpoint_marshals_then_validates bump_alloc sdk_stub
              {| getNativeHandle := 0 |} ["k"; "v"] 32 sample_state _
              eq_refl Hrej) as (_ & Hrun & Hcount & _).
  split; [exact Hrun | exact Hcount].
Defined.

Lemma listen_registers_witness :
  listen 8 sample_state
    = Done tt (after sample_state (heap sample_state)
                 [log_signal "listen"; RegisterEndpoint 4096 true true]).
Proof.
  apply (listen_registers sample_state 8 4096).
  - discriminate.
  - discriminate.
  - reflexivity.
Defined.


End Instances.

(** * Further properties *)

(** ** Calls through an endpoint handle *)

Section EndpointCalls.
Import ConversationsClientImpl.

Implicit Types (s : state) (h endpoint session : pointer).

Lemma listen_live s h endpoint :
  h ≠ nullptr -> endpoint ≠ nullptr ->
  heap s !! h = Some (TSCEndpointPtr endpoint) ->
  listen h s = Done tt (after s (heap s) (call_events endpoint Listen)).
Proof. intros Hh He Hlive. unfold listen. exec. by same_state. Qed.

Lemma unlisten_live s h endpoint :
  h ≠ nullptr -> endpoint ≠ nullptr ->
  heap s !! h = Some (TSCEndpointPtr endpoint) ->
  unlisten h s = Done tt (after s (heap s) (call_events endpoint Unlisten)).
Proof. intros Hh He Hlive. unfold unlisten. exec. by same_state. Qed.

(** X1. [unlisten] on a live handle of a non-empty endpoint pointer
    calls [unregisterEndpoint] on that endpoint, once, and returns with
    the heap as it was. *)
Theorem unlisten_unregisters s h endpoint :
  h ≠ nullptr ->
  endpoint ≠ nullptr ->
  heap s !! h = Some (TSCEndpointPtr endpoint) ->
  unlisten h s
    = Done tt (after s (heap s)
                 [log_signal "unlisten"; UnregisterEndpoint endpoint]).
Proof. apply unlisten_live. Qed.

(** X2. [reject] on a live endpoint handle and a live session handle
    passes the session the second handle points to on to the endpoint
    the first one points to, and returns with the heap as it was. *)
Theorem reject_forwards s h endpoint session target :
  h ≠ nullptr ->
  endpoint ≠ nullptr ->
  session ≠ nullptr ->
  heap s !! h = Some (TSCEndpointPtr endpoint) ->
  heap s !! session = Some (TSCSessionPtr target) ->
  reject h session s
    = Done tt (after s (heap s) [log_signal "reject"; Reject endpoint target]).
Proof.
  intros Hh He Hs Hlive Hsession. unfold reject. exec. by same_state.
Qed.

(** X3. [listen], [unlisten] and [reject] do not test their endpoint
    handle: on the null handle each stops with a null dereference right
    after its log line, whatever the state and the session handle. *)
Theorem endpoint_calls_need_handle s session :
  listen 0 s
    = Fault NullDereference (after s (heap s) [log_signal "listen"])
  /\ unlisten 0 s
    = Fault NullDereference (after s (heap s) [log_signal "unlisten"])
  /\ reject 0 session s
    = Fault NullDereference (after s (heap s) [log_signal "reject"]).
Proof. repeat split. Qed.

(** X4. Once [freeNativeHandle] has returned, the handle is dead for
    the calls that go through it: [listen], [unlisten] and [reject] on
    the same value read the freed handle object, which is where defined
    behaviour ends for each of them. *)
Theorem endpoint_calls_after_free s h endpoint session :
  h ≠ nullptr ->
  heap s !! h = Some (TSCEndpointPtr endpoint) ->
  let freed :=
    [log_signal "freeNativeHandle"; SdkDestroyEndpoint endpoint;
     Reset h; Delete h] in
  let stopped (entry : string) : result unit :=
    Fault (UseAfterFree h)
      (after s (delete h (heap s)) (freed ++ [log_signal entry])) in
  (freeNativeHandle h;; listen h) s = stopped "listen"
  /\ (freeNativeHandle h;; unlisten h) s = stopped "unlisten"
  /\ (freeNativeHandle h;; reject h session) s = stopped "reject".
Proof.
  intros Hh Hlive freed stopped.
  pose proof (freeNativeHandle_live s h endpoint Hh Hlive) as Hfree.
  repeat split; rewrite (bind_Done _ _ _ _ _ Hfree);
    [unfold listen | unfold unlisten | unfold reject];
    exec; subst stopped freed; by same_state.
Qed.

Lemma calls_live s h endpoint (cs : list endpoint_call) :
  h ≠ nullptr -> endpoint ≠ nullptr ->
  heap s !! h = Some (TSCEndpointPtr endpoint) ->
  calls h cs s
    = Done tt (after s (heap s) (flat_map (call_events endpoint) cs)).
Proof.
  intros Hh He. revert s.
  induction cs as [|c cs IH]; intros s Hlive; simpl.
  - by rewrite after_nil.
  - assert (call h c s = Done tt (after s (heap s) (call_events endpoint c)))
      as Hc by (destruct c; [by apply listen_live | by apply unlisten_live]).
    rewrite (bind_Done _ _ _ _ _ Hc), IH by done.
    by rewrite after_after.
Qed.

(** X5. [listen] and [unlisten] do not use the handle up: any run of
    such calls on a live handle returns, leaves the heap as it was, makes
    one register or unregister call per entry in the order given, and the
    handle can still be freed afterwards. *)
Theorem calls_keep_handle s h endpoint (cs : list endpoint_call) :
  h ≠ nullptr ->
  endpoint ≠ nullptr ->
  heap s !! h = Some (TSCEndpointPtr endpoint) ->
  calls h cs s
    = Done tt (after s (heap s) (flat_map (call_events endpoint) cs))
  /\ (calls h cs;; freeNativeHandle h) s
    = Done tt
        (after s (delete h (heap s))
           (flat_map (call_events endpoint) cs
              ++ [log_signal "freeNativeHandle"; SdkDestroyEndpoint endpoint;
                  Reset h; Delete h])).
Proof.
  intros Hh He Hlive. split; [by apply calls_live|].
  rewrite (bind_Done _ _ _ _ _ (calls_live s h endpoint cs Hh He Hlive)).
  rewrite (freeNativeHandle_live _ h endpoint) by done.
  by rewrite after_after.
Qed.

End EndpointCalls.

(** ** Calls through a room context handle *)

Section RoomCalls.

Implicit Types (s : state) (h room observer : pointer).

(** X6. On a live room context [nativeDisconnect] and [nativeGetStats]
    forward to the room and leave the heap as it was.  [nativeGetStats]
    hands the stats-observer handle on as it is: it is neither tested
    nor read, so any value, null included, reaches the room. *)
Theorem room_calls_forward_live s h room observer :
  h ≠ nullptr ->
  room ≠ nullptr ->
  heap s !! h = Some (RoomContext room) ->
  Room.nativeDisconnect h s
    = Done tt (after s (heap s)
                 [log_platform "Java_com_twilio_video_Room_nativeDisconnect";
                  Disconnect room])
  /\ Room.nativeGetStats h observer s
    = Done tt (after s (heap s)
                 [log_platform "Java_com_twilio_video_Room_nativeGetStats";
                  GetStats room observer]).
Proof.
  intros Hh Hroom Hlive.
  split; [unfold Room.nativeDisconnect | unfold Room.nativeGetStats];
    exec; by same_state.
Qed.

(** X7. [nativeRelease] on a live room context deletes that object and
    nothing else, once.  After it the handle is dead: [nativeDisconnect]
    and [nativeGetStats] stop at the freed object, and a second
    [nativeRelease], which only tests for null, deletes it again. *)
Theorem room_release_ends_handle s h room observer :
  h ≠ nullptr ->
  heap s !! h = Some (RoomContext room) ->
  let entry := log_platform "Java_com_twilio_video_Room_nativeRelease" in
  let released := after s (delete h (heap s)) [entry; Delete h] in
  Room.nativeRelease h s = Done tt released
  /\ Room.nativeDisconnect h released
    = Fault (UseAfterFree h)
        (after released (heap released)
           [log_platform "Java_com_twilio_video_Room_nativeDisconnect"])
  /\ Room.nativeGetStats h observer released
    = Fault (UseAfterFree h)
        (after released (heap released)
           [log_platform "Java_com_twilio_video_Room_nativeGetStats"])
  /\ Room.nativeRelease h released
    = Fault (DoubleFree h) (after released (heap released) [entry]).
Proof.
  intros Hh Hlive entry released.
  assert (heap released !! h = None) as Hdead
      by (subst released; simpl; by rewrite lookup_delete_eq).
  split; [|split; [|split]].
  - unfold Room.nativeRelease. subst released entry. exec. by same_state.
  - unfold Room.nativeDisconnect. by exec.
  - unfold Room.nativeGetStats. by exec.
  - unfold Room.nativeRelease. subst entry. by exec.
Qed.

End RoomCalls.

(** ** Create and release as a pair *)

Section Pairs.
Import ConversationsClientImpl.

Variable alloc : gmap Z object -> pointer.
Variable sdk_createEndpoint : TSCOptions -> pointer -> pointer -> pointer.

Hypothesis alloc_nonnull : forall m, alloc m ≠ nullptr.
Hypothesis alloc_fresh : forall m, m !! alloc m = None.

Lemma delete_fresh (m : gmap Z object) (p : pointer) (o : object) :
  m !! p = None -> delete p (<[p := o]> m) = m.
Proof. intros Hp. rewrite delete_insert_eq. by apply delete_id. Qed.

(** X8. A listener [nativeCreate] followed by the matching
    [nativeRelease] on the handle it returned gives the heap back exactly
    as it was: the adapter is the only object added and the only one
    removed. *)
Theorem listener_create_release_restores_heap
    (k : listener_kind) (j : jobject) (s : state) :
  let h := alloc (heap s) in
  (do handle <- listener_nativeCreate k alloc j;
   listener_nativeRelease k handle) s
  = Done tt
      (after s (heap s)
         [log_platform ("Create " +:+ listener_name k); New h;
          release_entry k; SetObserverDeleted h; Delete h]).
Proof.
  intros h. rewrite (bind_Done _ _ _ _ _ (listener_create k alloc j s)).
  rewrite (listener_release_live k _ _ j false);
    [|done|simpl; by rewrite lookup_insert_eq].
  rewrite after_after. simpl. by rewrite delete_fresh.
Qed.

(** X9. An accepted [createEndpoint] followed by [freeNativeHandle] on
    the handle it returned gives the heap back exactly as it was; the
    endpoint the factory made is the one handed to [destroyEndpoint]. *)
Theorem endpoint_create_free_restores_heap
    (j_accessMgr : JavaAccessManager) (arr : jobjectArray) (observer : jlong)
    (s : state) (target : pointer) (token : string) :
  Nat.even (length arr) = true ->
  observer ≠ 0 ->
  heap s !! observer = Some (TSCEndpointObserverPtr target) ->
  getNativeHandle j_accessMgr ≠ 0 ->
  heap s !! getNativeHandle j_accessMgr = Some (AccessManager token) ->
  token ≠ "" ->
  let h := alloc (heap s) in
  let options := foldl assign ∅ (pairs arr) in
  let endpoint :=
    sdk_createEndpoint options (getNativeHandle j_accessMgr) target in
  (do handle <- createEndpoint alloc sdk_createEndpoint j_accessMgr arr observer;
   freeNativeHandle handle) s
  = Done tt
      (after s (heap s)
         (log_signal "createEndpoint"
            :: marshal_events 0 arr
            ++ [CallLongMethod "getNativeHandle";
                LogDebug ("access token is:" +:+ token);
                New h;
                SdkCreateEndpoint options (getNativeHandle j_accessMgr) target;
                log_signal "freeNativeHandle"; SdkDestroyEndpoint endpoint;
                Reset h; Delete h])).
Proof.
  intros Hlen Hobs Hobserver Ham Hmanager Htoken h options endpoint.
  rewrite (bind_Done _ _ _ _ _
             (createEndpoint_accepted alloc sdk_createEndpoint j_accessMgr arr
                observer s target token (alloc_nonnull _) (alloc_fresh _)
                Hlen Hobs Hobserver Ham Hmanager Htoken)).
  rewrite (freeNativeHandle_live _ (alloc (heap s)) endpoint);
    [|done|simpl; by rewrite lookup_insert_eq].
  rewrite after_after. simpl. rewrite delete_fresh by done.
  unfold after. f_equal. f_equal. f_equal. rewrite <- app_assoc. done.
Qed.

(** X10. [createEndpoint] does not test what the factory hands back.
    An accepted call returns a non-null handle even when the factory
    returned an empty endpoint pointer; [listen] through that handle is
    then a null dereference, and otherwise registers the endpoint the
    factory made. *)
Theorem create_then_listen
    (j_accessMgr : JavaAccessManager) (arr : jobjectArray) (observer : jlong)
    (s : state) (target : pointer) (token : string) :
  Nat.even (length arr) = true ->
  observer ≠ 0 ->
  heap s !! observer = Some (TSCEndpointObserverPtr target) ->
  getNativeHandle j_accessMgr ≠ 0 ->
  heap s !! getNativeHandle j_accessMgr = Some (AccessManager token) ->
  token ≠ "" ->
  let options := foldl assign ∅ (pairs arr) in
  let endpoint :=
    sdk_createEndpoint options (getNativeHandle j_accessMgr) target in
  exists h s1,
    createEndpoint alloc sdk_createEndpoint j_accessMgr arr observer s
      = Done h s1
    /\ h ≠ nullptr
    /\ heap s1 !! h = Some (TSCEndpointPtr endpoint)
    /\ listen h s1
       = if decide (endpoint = nullptr)
         then Fault NullDereference (after s1 (heap s1) [log_signal "listen"])
         else Done tt (after s1 (heap s1)
                         [log_signal "listen";
                          RegisterEndpoint endpoint true true]).
Proof.
  intros Hlen Hobs Hobserver Ham Hmanager Htoken options endpoint.
  eexists _, _. split.
  { by apply (createEndpoint_accepted alloc sdk_createEndpoint j_accessMgr
                arr observer s target token). }
  split; [done|]. split; [simpl; by rewrite lookup_insert_eq|].
  unfold listen. exec. fold options. fold endpoint.
  destruct (decide (endpoint = nullptr)) as [Hnull|Hnull]; exec;
    by same_state.
Qed.

End Pairs.

(** ** More on the marshalling loop *)

Section MarshallingMore.
Import ConversationsClientImpl.



Lemma foldl_assign_union (ps : list (string * string)) :
  forall m : TSCOptions, foldl assign m ps = list_to_map (reverse ps) ∪ m.
Proof.
  induction ps as [|[k v] ps IH]; intros m; simpl.
  - by rewrite (left_id_L ∅ (∪)).
  - rewrite IH, reverse_cons, list_to_map_app. unfold assign. simpl.
    rewrite insert_empty, <- (assoc_L (∪)).
    by rewrite <- insert_union_singleton_l.
Qed.

Lemma pairs_flatten (ps : list (string * string)) :
  pairs (flatten ps) = ps /\ Nat.even (length (flatten ps)) = true.
Proof.
  induction ps as [|[k v] ps [IH1 IH2]]; [done|]. simpl. by rewrite IH1.
Qed.

Lemma pairs_app (arr1 arr2 : list string) :
  Nat.even (length arr1) = true ->
  pairs (arr1 ++ arr2) = (pairs arr1 ++ pairs arr2)%list.
Proof.
  induction arr1 as [|x|k v arr1 IH] using pair_ind; intros Heven.
  - done.
  - discriminate.
  - simpl. by rewrite IH.
Qed.

Lemma even_length_app (arr1 arr2 : list string) :
  Nat.even (length arr1) = true ->
  Nat.even (length arr2) = true ->
  Nat.even (length (arr1 ++ arr2)) = true.
Proof. intros H1 H2. by rewrite length_app, Nat.even_add, H1, H2. Qed.

(** X12. Round trip with the caller's map: the array obtained by
    flattening the entries of any string map is marshalled back into
    exactly that map. *)
Theorem marshal_flattened_map (m : TSCOptions) (s : state) :
  let arr := flatten (map_to_list m) in
  marshal_options arr s = Done m (after s (heap s) (marshal_events 0 arr)).
Proof.
  intros arr. destruct (pairs_flatten (map_to_list m)) as [Hpairs Heven].
  rewrite marshal_options_spec. cbn zeta. subst arr. rewrite Heven, Hpairs.
  rewrite foldl_assign_union, (right_id_L ∅ (∪)).
  f_equal. etrans; [|apply list_to_map_to_list].
  apply list_to_map_proper.
  - rewrite fmap_reverse, reverse_Permutation. apply NoDup_fst_map_to_list.
  - apply reverse_Permutation.
Qed.

(** X13. Marshalling two well-formed arrays one after the other in one
    array gives the mapping of the second laid over the mapping of the
    first: a key of the second array overrides the same key of the
    first, every other key of either array is kept. *)
Theorem marshal_appended_arrays (arr1 arr2 : jobjectArray) (s : state) :
  Nat.even (length arr1) = true ->
  Nat.even (length arr2) = true ->
  exists options1 options2 : TSCOptions,
    marshal_options arr1 s
      = Done options1 (after s (heap s) (marshal_events 0 arr1))
    /\ marshal_options arr2 s
      = Done options2 (after s (heap s) (marshal_events 0 arr2))
    /\ marshal_options (arr1 ++ arr2) s
      = Done (options2 ∪ options1)
          (after s (heap s) (marshal_events 0 (arr1 ++ arr2))).
Proof.
  intros Heven1 Heven2.
  exists (foldl assign ∅ (pairs arr1)), (foldl assign ∅ (pairs arr2)).
  rewrite !marshal_options_spec. cbn zeta.
  rewrite Heven1, Heven2, even_length_app by done.
  split; [done|]. split; [done|]. f_equal.
  rewrite pairs_app, foldl_app by done.
  rewrite (foldl_assign_union (pairs arr2) (foldl assign ∅ (pairs arr1))).
  rewrite (foldl_assign_union (pairs arr2) ∅), (right_id_L ∅ (∪)). done.
Qed.

End MarshallingMore.

(** ** createEndpoint with nullable references *)

Section NullableReferences.

Variable alloc : gmap Z object -> pointer.
Variable sdk_createEndpoint : TSCOptions -> pointer -> pointer -> pointer.

Implicit Types (s : state) (observer : jlong).
Implicit Types (elements : list (option string)).

Lemma read_agrees (arr : jobjectArray) (i : Z) s :
  Nullable.env_GetObjectArrayElement (Some <$> arr) i s
  = env_GetObjectArrayElement arr i s.
Proof.
  unfold Nullable.env_GetObjectArrayElement, env_GetObjectArrayElement, bind.
  simpl. case_decide; [|done]. rewrite list_lookup_fmap.
  by destruct (arr !! Z.to_nat i).
Qed.

Lemma marshal_loop_agrees (arr : jobjectArray) (size : Z) :
  forall fuel i options s,
    Nullable.marshal_loop fuel (Some <$> arr) size i options s
    = ConversationsClientImpl.marshal_loop fuel arr size i options s.
Proof.
  induction fuel as [|fuel IH]; intros i options s; [done|].
  simpl. case_decide; [|done]. unfold bind. rewrite read_agrees.
  destruct (env_GetObjectArrayElement arr i s) as [jKey s1|?|]; [|done..].
  rewrite read_agrees.
  destruct (env_GetObjectArrayElement arr (i + 1) s1) as [jValue s2|?|];
    [|done..].
  destruct (JavaToStdString jKey s2) as [key s3|?|]; [|done..].
  destruct (JavaToStdString jValue s3) as [value s4|?|]; [|done..].
  simpl. apply IH.
Qed.

Lemma marshal_options_agrees (arr : jobjectArray) s :
  Nullable.marshal_options (Some (Some <$> arr)) s
  = ConversationsClientImpl.marshal_options arr s.
Proof.
  unfold Nullable.marshal_options, ConversationsClientImpl.marshal_options,
    Nullable.env_GetArrayLength, GetArrayLength, bind, ret.
  rewrite length_fmap. apply marshal_loop_agrees.
Qed.

Lemma bind_ext {A B} (m m' : M A) (k k' : A -> M B) s :
  m s = m' s -> (forall a s', k a s' = k' a s') -> bind m k s = bind m' k' s.
Proof.
  intros Hm Hk. unfold bind. rewrite Hm. by destruct (m' s).
Qed.

(** On non-null references the two descriptions of [createEndpoint] are
    one. *)
Lemma createEndpoint_agrees (j_accessMgr : JavaAccessManager)
    (arr : jobjectArray) observer s :
  Nullable.createEndpoint alloc sdk_createEndpoint (Some j_accessMgr)
    (Some (Some <$> arr)) observer s
  = ConversationsClientImpl.createEndpoint alloc sdk_createEndpoint
      j_accessMgr arr observer s.
Proof.
  unfold Nullable.createEndpoint, ConversationsClientImpl.createEndpoint.
  apply bind_ext; [done|]. intros _ s1.
  apply bind_ext; [apply marshal_options_agrees|]. intros options s2.
  reflexivity.
Qed.

(** The loop over any array, null slots included: it comes to an end,
    returning or stopping on a [NULL] string, with the heap as it was and
    without a call to the factory. *)
Lemma nullable_loop_cases elements :
  forall fuel n options s,
    (length elements - n < fuel)%nat ->
    exists es : list event,
      Forall (fun e => is_factory_call e = false) es
      /\ ((exists result,
             Nullable.marshal_loop fuel elements (Z.of_nat (length elements))
               (Z.of_nat n) options s
             = Done result (after s (heap s) es))
          \/ Nullable.marshal_loop fuel elements (Z.of_nat (length elements))
               (Z.of_nat n) options s
             = Fault NullString (after s (heap s) es)).
Proof.
  induction fuel as [|fuel IH]; intros n options s Hfuel; [lia|].
  simpl. case_decide as Hlt.
  2:{ exists []. split; [constructor|]. left. eexists. by rewrite after_nil. }
  unfold Nullable.env_GetObjectArrayElement, JavaToStdString,
    env_DeleteLocalRef.
  rewrite !decide_True by lia.
  replace (Z.to_nat (Z.of_nat n + 1)) with (S n) by lia.
  rewrite Nat2Z.id.
  replace (Z.of_nat n + 1 + 1) with (Z.of_nat (S (S n))) by lia.
  unfold_monad. simpl.
  destruct (elements !! n) as [[key|]|]; simpl;
    destruct (elements !! S n) as [[value|]|]; simpl;
    try (match goal with
         | |- context [Nullable.marshal_loop fuel elements _ _ ?o ?st] =>
             destruct (IH (S (S n)) o st) as (es & Hquiet & [[result ->]| ->]);
               [lia|..]
         end);
    (eexists; split;
      [|first [ left; eexists; unfold after; simpl;
                rewrite <- ?app_assoc; simpl; reflexivity
              | right; unfold after; simpl;
                rewrite <- ?app_assoc; simpl; reflexivity ]]);
    repeat (first [apply Forall_cons; split; [done|] | apply Forall_nil_2
                  | exact Hquiet]).
Qed.

Lemma nullable_marshal_cases (optionsArray : option (list (option string))) s :
  exists es : list event,
    Forall (fun e => is_factory_call e = false) es
    /\ ((exists options,
           Nullable.marshal_options optionsArray s
           = Done options (after s (heap s) es))
        \/ (exists f,
              (f = NullString \/ f = NullReference)
              /\ Nullable.marshal_options optionsArray s
                 = Fault f (after s (heap s) es))).
Proof.
  destruct optionsArray as [elements|].
  - destruct (nullable_loop_cases elements (S (length elements)) 0 ∅ s)
      as (es & Hquiet & [[options Hrun]|Hrun]); [lia|..];
      exists es; (split; [done|]); [left|right]; eexists;
      [|split; [by left|]]; exact Hrun.
  - exists []. split; [constructor|]. right. eexists.
    split; [by right|]. rewrite after_nil. reflexivity.
Qed.

Lemma invalid_arguments_no_factory (j_accessMgr : option JavaAccessManager)
    (optionsArray : option (list (option string))) observer s :
  invalid_arguments j_accessMgr observer s ->
  exists es : list event,
    trace_of (Nullable.createEndpoint alloc sdk_createEndpoint j_accessMgr
                optionsArray observer s)
      = (trace s ++ es)%list
    /\ Forall (fun e => is_factory_call e = false) es.
Proof.
  intros Hinvalid. unfold Nullable.createEndpoint, TS_CORE_LOG_MODULE.
  rewrite (bind_Done _ _ _ _ _ (emit_after _ _)).
  destruct (nullable_marshal_cases optionsArray
              (after s (heap s) [log_signal "createEndpoint"]))
    as (es & Hquiet & [[options Hrun]|(f & _ & Hrun)]).
  2:{ rewrite (bind_Fault _ _ _ _ _ Hrun). trace_from s. quiet_trace Hquiet. }
  rewrite (bind_Done _ _ _ _ _ Hrun).
  destruct (decide (observer = 0)) as [Hobs|Hobs].
  { exec. trace_from s. quiet_trace Hquiet. }
  destruct j_accessMgr as [manager|].
  2:{ exec. trace_from s. quiet_trace Hquiet. }
  destruct (decide (getNativeHandle manager = 0)) as [Hnull|Hnull].
  { exec. trace_from s. quiet_trace Hquiet. }
  destruct Hinvalid as [?|[?|(manager' & [= <-] & [?|Htoken])]]; [done..|].
  exec. trace_from s. quiet_trace Hquiet.
Qed.

Lemma invalid_arguments_return_zero (j_accessMgr : option JavaAccessManager)
    (arr : jobjectArray) observer s :
  invalid_arguments j_accessMgr observer s ->
  Nat.even (length arr) = true ->
  observer = 0 \/ j_accessMgr ≠ None ->
  exists es : list event,
    Nullable.createEndpoint alloc sdk_createEndpoint j_accessMgr
      (Some (Some <$> arr)) observer s
    = Done 0 (after s (heap s) es)
    /\ Forall (fun e => is_throw e = false) es.
Proof.
  intros Hinvalid Heven Hreference.
  destruct (marshal_events_even arr 0 Heven) as (_ & Hquiet & _); [lia|].
  unfold Nullable.createEndpoint, TS_CORE_LOG_MODULE.
  rewrite (bind_Done _ _ _ _ _ (emit_after _ _)).
  rewrite (bind_Done (Nullable.marshal_options (Some (Some <$> arr))) _ _
             (foldl assign ∅ (pairs arr))
             (after (after s (heap s) [log_signal "createEndpoint"])
                (heap s) (marshal_events 0 arr)));
    [|rewrite marshal_options_agrees, marshal_options_spec; cbn zeta;
      by rewrite Heven].
  destruct (decide (observer = 0)) as [Hobs|Hobs].
  { exec. trace_from s. quiet_trace Hquiet. }
  destruct j_accessMgr as [manager|]; [|by destruct Hreference].
  destruct (decide (getNativeHandle manager = 0)) as [Hnull|Hnull].
  { exec. trace_from s. quiet_trace Hquiet. }
  destruct Hinvalid as [?|[?|(manager' & [= <-] & [?|Htoken])]]; [done..|].
  exec. trace_from s. quiet_trace Hquiet.
Qed.

(** C1, as the code has it.  When the observer handle is null, the
    access-manager reference is [NULL], the native access manager behind
    it is null, or its token is empty, the native factory is never
    called, whatever the option array.  The call returns the handle 0,
    with no exception thrown, when moreover the option array is a
    non-null array of even length without a null element and, unless the
    observer handle is null, the access-manager reference is not
    [NULL]. *)
Theorem createEndpoint_turns_down_invalid_arguments
    (j_accessMgr : option JavaAccessManager)
    (optionsArray : option (list (option string))) observer s :
  invalid_arguments j_accessMgr observer s ->
  let r := Nullable.createEndpoint alloc sdk_createEndpoint j_accessMgr
             optionsArray observer s in
  exists es : list event,
    trace_of r = (trace s ++ es)%list
    /\ Forall (fun e => is_factory_call e = false) es
    /\ (forall arr : jobjectArray,
          optionsArray = Some (Some <$> arr) ->
          Nat.even (length arr) = true ->
          observer = 0 \/ j_accessMgr ≠ None ->
          r = Done 0 (after s (heap s) es)
          /\ Forall (fun e => is_throw e = false) es).
Proof.
  intros Hinvalid r.
  destruct (invalid_arguments_no_factory j_accessMgr optionsArray observer s
              Hinvalid) as (es & Htrace & Hquiet).
  exists es. split; [done|]. split; [done|].
  intros arr -> Heven Hreference.
  destruct (invalid_arguments_return_zero j_accessMgr arr observer s
              Hinvalid Heven Hreference) as (es' & Hrun & Hcalm).
  subst r. rewrite Hrun in Htrace |- *. simpl in Htrace.
  apply app_inv_head in Htrace. by subst es'.
Qed.

End NullableReferences.

(** ** Every outcome of createEndpoint *)

Section Outcomes.
Import ConversationsClientImpl.

Variable alloc : gmap Z object -> pointer.
Variable sdk_createEndpoint : TSCOptions -> pointer -> pointer -> pointer.

Lemma count_cons f e es :
  count f (e :: es) = ((if f e then 1 else 0) + count f es)%nat.
Proof. unfold count. simpl. by destruct (f e). Qed.

Lemma count_app f es1 es2 :
  count f (es1 ++ es2) = (count f es1 + count f es2)%nat.
Proof. unfold count. by rewrite List.filter_app, length_app. Qed.

Lemma count_quiet f es : Forall (fun e => f e = false) es -> count f es = 0%nat.
Proof.
  induction 1 as [|e es He _ IH]; [done|]. by rewrite count_cons, He, IH.
Qed.

Lemma count_factory_marshal i arr :
  count is_factory_call (marshal_events i arr) = 0%nat.
Proof. apply count_quiet, marshal_events_no_factory. Qed.

(** The run of [createEndpoint] on any arguments, path by path. *)
Lemma createEndpoint_cases (j_accessMgr : JavaAccessManager)
    (arr : jobjectArray) (observer : jlong) (s : state) :
  exists es : list event,
    trace_of (createEndpoint alloc sdk_createEndpoint j_accessMgr arr observer s)
      = (trace s ++ es)%list
    /\ match createEndpoint alloc sdk_createEndpoint j_accessMgr arr observer s
       with
       | Done h s' =>
           (h = 0 /\ heap s' = heap s /\ count is_factory_call es = 0%nat)
           \/ (h = alloc (heap s)
               /\ (exists endpoint,
                     heap s' = <[h := TSCEndpointPtr endpoint]> (heap s))
               /\ count is_factory_call es = 1%nat)
       | Fault _ s' =>
           count is_factory_call es = 0%nat
           /\ (heap s' = heap s
               \/ heap s' = <[alloc (heap s) := TSCEndpointPtr nullptr]> (heap s))
       | OutOfFuel => False
       end.
Proof.
  destruct (Nat.even (length arr)) eqn:Hlen.
  2:{ rewrite (createEndpoint_odd _ _ _ _ _ _ Hlen).
      eexists. split; [reflexivity|]. split; [|by left].
      by rewrite count_cons, count_factory_marshal. }
  unfold createEndpoint, TS_CORE_LOG_MODULE.
  rewrite (bind_Done _ _ _ _ _ (emit_after _ _)).
  rewrite (bind_Done (marshal_options arr) _ _
             (foldl assign ∅ (pairs arr))
             (after (after s (heap s) [log_signal "createEndpoint"])
                (heap s) (marshal_events 0 arr)));
    [|rewrite marshal_options_spec; cbn zeta; by rewrite Hlen].
  rewrite after_after. unfold getNativeAccessMgrFromJava. unfold_monad. simpl.
  repeat (first
    [ case_decide
    | match goal with
      | |- context [match ?m !! ?p with _ => _ end] =>
          destruct (m !! p) as [[]|] eqn:?
      end ]; simpl);
    (eexists; split; [rewrite <- ?app_assoc; simpl; reflexivity|]);
    rewrite ?count_cons, ?count_app, ?count_factory_marshal; simpl;
    try (split; [done|]); auto.
  right. split; [done|]. split; [|done].
  eexists. by rewrite insert_insert_eq.
Qed.

(** X15. With an allocator that hands out unused addresses,
    [createEndpoint] never frees or overwrites an object: every object
    live before the call is live and unchanged when the call stops,
    whether it returns or faults. *)
Theorem createEndpoint_keeps_objects (j_accessMgr : JavaAccessManager)
    (arr : jobjectArray) (observer : jlong) (s : state)
    (p : pointer) (o : object) :
  (forall m, m !! alloc m = None) ->
  heap s !! p = Some o ->
  final_heap
    (createEndpoint alloc sdk_createEndpoint j_accessMgr arr observer s) !! p
  = Some o.
Proof.
  intros Hfresh Hlive.
  assert (alloc (heap s) ≠ p) as Hne.
  { intros Heq. specialize (Hfresh (heap s)). rewrite Heq in Hfresh.
    congruence. }
  destruct (createEndpoint_cases j_accessMgr arr observer s) as (es & _ & Hr).
  destruct (createEndpoint alloc sdk_createEndpoint j_accessMgr arr observer s)
    as [h s'|f s'|]; simpl; [| |done].
  - destruct Hr as [(_ & -> & _)|(-> & [endpoint ->] & _)]; [done|].
    by rewrite lookup_insert_ne.
  - destruct Hr as (_ & [->| ->]); [done|]. by rewrite lookup_insert_ne.
Qed.

End Outcomes.

(** ** The further properties at concrete inputs *)

Section MoreInstances.
Import ConversationsClientImpl.

Lemma unlisten_unregisters_witness :
  unlisten 8 sample_state
    = Done tt (after sample_state (heap sample_state)
                 [log_signal "unlisten"; UnregisterEndpoint 4096]).
Proof.
  apply (unlisten_unregisters sample_state 8 4096).
  - discriminate.
  - discriminate.
  - reflexivity.
Defined.

Lemma reject_forwards_witness :
  reject 8 64 session_state
    = Done tt (after session_state (heap session_state)
                 [log_signal "reject"; Reject 4096 700]).
Proof.
  apply (reject_forwards session_state 8 4096 64 700).
  - discriminate.
  - discriminate.
  - discriminate.
  - reflexivity.
  - reflexivity.
Defined.

Lemma endpoint_calls_after_free_witness :
  (freeNativeHandle 8;; listen 8) sample_state
    = Fault (UseAfterFree 8)
        (after sample_state (delete 8 (heap sample_state))
           ([log_signal "freeNativeHandle"; SdkDestroyEndpoint 4096;
             Reset 8; Delete 8] ++ [log_signal "listen"])).
Proof.
  assert (8 ≠ nullptr) as Hh by discriminate.
  assert (heap sample_state !! 8 = Some (TSCEndpointPtr 4096)) as Hlive
      by reflexivity.
  destruct (endpoint_calls_after_free sample_state 8 4096 64 Hh Hlive)
    as (Hlisten & _).
  exact Hlisten.
Defined.

Lemma calls_keep_handle_witness :
  calls 8 [Listen; Unlisten; Listen] sample_state
    = Done tt
        (after sample_state (heap sample_state)
           (flat_map (call_events 4096) [Listen; Unlisten; Listen])).
Proof.
  assert (8 ≠ nullptr) as Hh by discriminate.
  assert (4096 ≠ nullptr) as He by discriminate.
  assert (heap sample_state !! 8 = Some (TSCEndpointPtr 4096)) as Hlive
      by reflexivity.
  destruct (calls_keep_handle sample_state 8 4096 [Listen; Unlisten; Listen]
              Hh He Hlive) as (Hcalls & _).
  exact Hcalls.
Defined.

Lemma room_calls_forward_live_witness :
  Room.nativeDisconnect 56 sample_state
    = Done tt (after sample_state (heap sample_state)
                 [log_platform "Java_com_twilio_video_Room_nativeDisconnect";
                  Disconnect 500])
  /\ Room.nativeGetStats 56 0 sample_state
    = Done tt (after sample_state (heap sample_state)
                 [log_platform "Java_com_twilio_video_Room_nativeGetStats";
                  GetStats 500 0]).
Proof.
  apply (room_calls_forward_live sample_state 56 500 0).
  - discriminate.
  - discriminate.
  - reflexivity.
Defined.

Lemma room_release_ends_handle_witness :
  Room.nativeRelease 56 sample_state
    = Done tt
        (after sample_state (delete 56 (heap sample_state))
           [log_platform "Java_com_twilio_video_Room_nativeRelease";
            Delete 56]).
Proof.
  assert (56 ≠ nullptr) as Hh by discriminate.
  assert (heap sample_state !! 56 = Some (RoomContext 500)) as Hlive
      by reflexivity.
  destruct (room_release_ends_handle sample_state 56 500 48 Hh Hlive)
    as (Hrelease & _).
  exact Hrelease.
Defined.

Lemma listener_create_release_restores_heap_witness :
  (do handle <- listener_nativeCreate StatsListener bump_alloc 9;
   listener_nativeRelease StatsListener handle) sample_state
  = Done tt
      (after sample_state (heap sample_state)
         [log_platform ("Create " +:+ listener_name StatsListener);
          New (bump_alloc (heap sample_state));
          release_entry StatsListener;
          SetObserverDeleted (bump_alloc (heap sample_state));
          Delete (bump_alloc (heap sample_state))]).
Proof.
  apply (listener_create_release_restores_heap bump_alloc
           bump_alloc_nonnull bump_alloc_fresh StatsListener 9 sample_state).
Defined.

Lemma endpoint_create_free_restores_heap_witness :
  exists es : list event,
    (do handle <- createEndpoint bump_alloc sdk_stub
                    {| getNativeHandle := 16 |} ["a"; "1"] 32;
     freeNativeHandle handle) sample_state
    = Done tt (after sample_state (heap sample_state) es).
Proof.
  eexists.
  apply (endpoint_create_free_restores_heap bump_alloc sdk_stub
           bump_alloc_nonnull bump_alloc_fresh {| getNativeHandle := 16 |}
           ["a"; "1"] 32 sample_state 77 "tok").
  - reflexivity.
  - discriminate.
  - reflexivity.
  - discriminate.
  - reflexivity.
  - discriminate.
Defined.

Lemma create_then_listen_witness :
  exists h s1,
    createEndpoint bump_alloc (fun _ _ _ => nullptr)
      {| getNativeHandle := 16 |} ["a"; "1"] 32 sample_state = Done h s1
    /\ h ≠ nullptr
    /\ listen h s1
       = Fault NullDereference (after s1 (heap s1) [log_signal "listen"]).
Proof.
  destruct (create_then_listen bump_alloc (fun _ _ _ => nullptr)
              bump_alloc_nonnull bump_alloc_fresh {| getNativeHandle := 16 |}
              ["a"; "1"] 32 sample_state 77 "tok")
    as (h & s1 & Hcreate & Hh & _ & Hlisten);
    [reflexivity | discriminate | reflexivity | discriminate | reflexivity
    | discriminate |].
  exists h, s1. split; [exact Hcreate|]. split; [exact Hh|]. exact Hlisten.
Defined.


Lemma marshal_appended_arrays_witness :
  exists options1 options2 : TSCOptions,
    marshal_options ["a"; "1"; "b"; "2"] empty_state
      = Done options1
          (after empty_state (heap empty_state)
             (marshal_events 0 ["a"; "1"; "b"; "2"]))
    /\ marshal_options ["a"; "3"] empty_state
      = Done options2
          (after empty_state (heap empty_state) (marshal_events 0 ["a"; "3"]))
    /\ marshal_options (["a"; "1"; "b"; "2"] ++ ["a"; "3"]) empty_state
      = Done (options2 ∪ options1)
          (after empty_state (heap empty_state)
             (marshal_events 0 (["a"; "1"; "b"; "2"] ++ ["a"; "3"]))).
Proof.
  apply (marshal_appended_arrays ["a"; "1"; "b"; "2"] ["a"; "3"] empty_state).
  - reflexivity.
  - reflexivity.
Defined.

Lemma createEndpoint_keeps_objects_witness :
  final_heap (createEndpoint bump_alloc sdk_stub {| getNativeHandle := 16 |}
                ["a"; "1"] 32 sample_state) !! 56
  = Some (RoomContext 500).
Proof.
  apply (createEndpoint_keeps_objects bump_alloc sdk_stub
           {| getNativeHandle := 16 |} ["a"; "1"] 32 sample_state 56
           (RoomContext 500)).
  - exact bump_alloc_fresh.
  - reflexivity.
Defined.

End MoreInstances.

(** ** A release racing a callback *)

Section Race.

Implicit Types (k : listener_kind) (s : state) (h : pointer) (j : jobject).

(** The three steps of the releasing thread, taken in a row, are the
    listener [nativeRelease]. *)
Lemma release_steps_are_nativeRelease k h s :
  run_schedule k h [Releaser; Releaser; Releaser] 0 Waiting s
  = listener_nativeRelease k h s.
Proof.
  destruct k; simpl;
    [unfold Room.InternalRoomListenerHandle.nativeRelease
    |unfold Room.InternalStatsListenerHandle.nativeRelease];
    unfold release_step, release_entry, log_platform, TS_CORE_LOG_MODULE,
      listener_name, bind, emit, ret; simpl;
    change ("Free " +:+ "AndroidRoomObserver") with "Free AndroidRoomObserver";
    change ("Free " +:+ "AndroidStatsObserver")
      with "Free AndroidStatsObserver";
    (case_decide; [|reflexivity]);
    match goal with
    | |- context [setObserverDeleted h ?st] =>
        destruct (setObserverDeleted h st) as [[] s1|?|]; [|reflexivity..]
    end;
    by destruct (delete_ h s1) as [[] s2|?|].
Qed.

(** C5, as the code has it.  A listener [nativeRelease] on a live adapter
    marks it (setObserverDeleted) and then deletes it, in this order, in
    every interleaving with one callback dispatch that reads the flag
    before the delete.  The dispatch calls into the listener exactly when
    it read the flag before the mark, on an adapter not marked before;
    such a callback is not held back by the release and may come after
    the delete.  A dispatch that reads the flag once the mark is set
    calls nothing. *)
Theorem listener_release_races_dispatch k s h j deleted :
  h ≠ nullptr ->
  heap s !! h = Some (adapter k j deleted) ->
  forall schedule : list thread,
    length schedule = 5%nat ->
    release_steps schedule = 3%nat ->
    (steps_before_check schedule <= 2)%nat ->
    exists es : list event,
      run_schedule k h schedule 0 Waiting s
        = Done tt (after s (delete h (heap s)) es)
      /\ List.filter (fun e => negb (is_callback e)) es
         = [release_entry k; SetObserverDeleted h; Delete h]
      /\ List.filter is_callback es
         = if negb deleted && (steps_before_check schedule <? 2)%nat
           then [Callback j] else [].
Proof.
  intros Hh Hlive schedule Hlength Hsteps Hbefore.
  destruct schedule as [|[] [|[] [|[] [|[] [|[] [|]]]]]];
    simpl in Hlength, Hsteps, Hbefore; try discriminate; try lia;
    destruct k, deleted; unfold run_schedule, release_step; exec;
    rewrite ?delete_insert_eq;
    (eexists; split;
      [rewrite <- ?app_assoc; simpl; reflexivity | split; reflexivity]).
Qed.

End Race.

(** ** Every outcome of createEndpoint, nullable references included *)

Section AllOutcomes.

Variable alloc : gmap Z object -> pointer.
Variable sdk_createEndpoint : TSCOptions -> pointer -> pointer -> pointer.

(** X14. With an allocator that returns non-null, unused addresses and
    handles that are null or name a live object of their type,
    [createEndpoint] comes to an end on every option array and every
    access-manager reference, [NULL] included, and calls the factory at
    most once.  It returns 0 exactly when it has not called the factory,
    and then the heap is as it was; a non-null return means the factory
    was called exactly once and the handle names a live endpoint pointer.
    A call that stops on a [NULL] reference or string has not called the
    factory. *)
Theorem createEndpoint_outcome (j_accessMgr : option JavaAccessManager)
    (optionsArray : option (list (option string))) (observer : jlong)
    (s : state) :
  (forall m, alloc m ≠ nullptr) ->
  (forall m, m !! alloc m = None) ->
  observer = 0
  \/ (exists target, heap s !! observer = Some (TSCEndpointObserverPtr target)) ->
  (forall manager,
      j_accessMgr = Some manager ->
      getNativeHandle manager = 0
      \/ exists token,
          heap s !! getNativeHandle manager = Some (AccessManager token)) ->
  exists es : list event,
    trace_of (Nullable.createEndpoint alloc sdk_createEndpoint j_accessMgr
                optionsArray observer s)
      = (trace s ++ es)%list
    /\ match Nullable.createEndpoint alloc sdk_createEndpoint j_accessMgr
               optionsArray observer s
       with
       | Done h s' =>
           if decide (h = 0)
           then count is_factory_call es = 0%nat /\ heap s' = heap s
           else count is_factory_call es = 1%nat
                /\ exists endpoint, heap s' !! h = Some (TSCEndpointPtr endpoint)
       | Fault f _ =>
           (f = NullString \/ f = NullReference)
           /\ count is_factory_call es = 0%nat
       | OutOfFuel => False
       end.
Proof.
  intros Hnonnull Hfresh Hobserver Hmanager.
  unfold Nullable.createEndpoint, TS_CORE_LOG_MODULE.
  rewrite (bind_Done _ _ _ _ _ (emit_after _ _)).
  destruct (nullable_marshal_cases optionsArray
              (after s (heap s) [log_signal "createEndpoint"]))
    as (es & Hquiet & [[options Hrun]|(f & Hf & Hrun)]).
  2:{ rewrite (bind_Fault _ _ _ _ _ Hrun). trace_from s.
      split; [done|]. by rewrite ?count_cons, ?count_app, ?(count_quiet _ _ Hquiet). }
  rewrite (bind_Done _ _ _ _ _ Hrun).
  destruct (decide (observer = 0)) as [Hobs|Hobs].
  { exec. trace_from s. split; [|done].
    by rewrite ?count_cons, ?count_app, ?(count_quiet _ _ Hquiet). }
  destruct Hobserver as [?|[target Hobserver]]; [done|].
  destruct j_accessMgr as [manager|].
  2:{ exec. trace_from s. split; [by right|]. by rewrite ?count_cons, ?count_app, ?(count_quiet _ _ Hquiet). }
  destruct (decide (getNativeHandle manager = 0)) as [Hnull|Hnull].
  { exec. trace_from s. split; [|done].
    by rewrite ?count_cons, ?count_app, ?(count_quiet _ _ Hquiet). }
  destruct (Hmanager manager eq_refl) as [?|[token Htoken]]; [done|].
  destruct (decide (token = "")) as [->|Hempty].
  { exec. trace_from s. split; [|done].
    by rewrite ?count_cons, ?count_app, ?(count_quiet _ _ Hquiet). }
  assert (alloc (heap s) ≠ observer) as Hne.
  { intros Heq. specialize (Hfresh (heap s)). rewrite Heq in Hfresh.
    congruence. }
  exec. trace_from s. rewrite decide_False by apply Hnonnull. split.
  - by rewrite ?count_cons, ?count_app, ?(count_quiet _ _ Hquiet).
  - by eexists.
Qed.

End AllOutcomes.

(** ** Concrete runs with nullable references and with a race *)

Section MoreRuns.

(** C1 as stated fails.  The loop runs before any validation, so a call
    with a null observer handle still stops in the loop on an array of
    odd length, on a null slot, and on a [NULL] array.  And a [NULL]
    access-manager reference is never tested: with a non-null observer
    handle the call stops in [GetObjectClass] instead of returning 0. *)
Lemma invalid_call_not_turned_down :
  let odd_length :=
    Nullable.createEndpoint bump_alloc sdk_stub
      (Some {| getNativeHandle := 0 |}) (Some [Some "k"]) 0 empty_state in
  let null_slot :=
    Nullable.createEndpoint bump_alloc sdk_stub
      (Some {| getNativeHandle := 0 |}) (Some [Some "k"; None]) 0
      empty_state in
  let null_array :=
    Nullable.createEndpoint bump_alloc sdk_stub
      (Some {| getNativeHandle := 0 |}) None 0 empty_state in
  let null_manager :=
    Nullable.createEndpoint bump_alloc sdk_stub None
      (Some [Some "k"; Some "v"]) 32 sample_state in
  odd_length
    = Fault NullString
        (after empty_state ∅
           [log_signal "createEndpoint"; GetObjectArrayElement 0;
            GetObjectArrayElement 1; Throw ArrayIndexOutOfBoundsException])
  /\ null_slot
    = Fault NullString
        (after empty_state ∅
           [log_signal "createEndpoint"; GetObjectArrayElement 0;
            GetObjectArrayElement 1])
  /\ null_array
    = Fault NullReference (after empty_state ∅ [log_signal "createEndpoint"])
  /\ null_manager
    = Fault NullReference
        (after sample_state (heap sample_state)
           [log_signal "createEndpoint"; GetObjectArrayElement 0;
            GetObjectArrayElement 1; DeleteLocalRef (Some "k");
            DeleteLocalRef (Some "v")])
  /\ ¬ returns odd_length /\ ¬ returns null_slot
  /\ ¬ returns null_array /\ ¬ returns null_manager.
Proof.
  cbn zeta. repeat split; try (vm_compute; reflexivity);
    intros (a & s & Hr); vm_compute in Hr; discriminate.
Qed.

(** C5 as stated fails in its second half: a dispatch that read the flag
    before the mark delivers its callback after the adapter has been
    marked and deleted. *)
Lemma callback_lands_after_delete :
  let late :=
    after sample_state (delete 40 (heap sample_state))
      [release_entry RoomListener; SetObserverDeleted 40; Delete 40;
       Callback 9] in
  run_schedule RoomListener 40
    [Dispatcher; Releaser; Releaser; Releaser; Dispatcher] 0 Waiting
    sample_state
  = Done tt late
  /\ (do target <- dispatch_check 40;
      Room.InternalRoomListenerHandle.nativeRelease 40;;
      dispatch_deliver target) sample_state
     = Done tt late.
Proof. cbn zeta. split; vm_compute; reflexivity. Qed.

Lemma createEndpoint_turns_down_invalid_arguments_witness :
  exists es : list event,
    trace_of (Nullable.createEndpoint bump_alloc sdk_stub
                (Some {| getNativeHandle := 24 |})
                (Some (Some <$> ["k"; "v"])) 32 sample_state)
      = (trace sample_state ++ es)%list
    /\ Forall (fun e => is_factory_call e = false) es
    /\ Nullable.createEndpoint bump_alloc sdk_stub
         (Some {| getNativeHandle := 24 |}) (Some (Some <$> ["k"; "v"])) 32
         sample_state
       = Done 0 (after sample_state (heap sample_state) es)
    /\ Forall (fun e => is_throw e = false) es.
Proof.
  assert (invalid_arguments (Some {| getNativeHandle := 24 |}) 32 sample_state)
    as Hinvalid.
  { right. right. exists {| getNativeHandle := 24 |}. split; [reflexivity|].
    right. reflexivity. }
  destruct (createEndpoint_turns_down_invalid_arguments bump_alloc sdk_stub
              (Some {| getNativeHandle := 24 |})
              (Some (Some <$> ["k"; "v"])) 32 sample_state Hinvalid)
    as (es & Htrace & Hquiet & Hreturn).
  destruct (Hreturn ["k"; "v"] eq_refl eq_refl) as [Hrun Hcalm].
  { right. discriminate. }
  exists es. split; [exact Htrace|]. split; [exact Hquiet|].
  split; [exact Hrun | exact Hcalm].
Defined.

Lemma listener_release_races_dispatch_witness :
  exists es : list event,
    run_schedule StatsListener 48
      [Releaser; Releaser; Dispatcher; Dispatcher; Releaser] 0 Waiting
      sample_state
    = Done tt (after sample_state (delete 48 (heap sample_state)) es)
    /\ List.filter (fun e => negb (is_callback e)) es
       = [release_entry StatsListener; SetObserverDeleted 48; Delete 48]
    /\ List.filter is_callback es = [].
Proof.
  assert (48 ≠ nullptr) as Hh by discriminate.
  assert (heap sample_state !! 48 = Some (adapter StatsListener 9 false))
    as Hlive by reflexivity.
  apply (listener_release_races_dispatch StatsListener sample_state 48 9 false
           Hh Hlive [Releaser; Releaser; Dispatcher; Dispatcher; Releaser]).
  - reflexivity.
  - reflexivity.
  - simpl. lia.
Defined.

Lemma createEndpoint_outcome_witness :
  exists es : list event,
    trace_of (Nullable.createEndpoint bump_alloc sdk_stub
                (Some {| getNativeHandle := 16 |})
                (Some [Some "a"; Some "1"]) 32 sample_state)
      = (trace sample_state ++ es)%list
    /\ match Nullable.createEndpoint bump_alloc sdk_stub
               (Some {| getNativeHandle := 16 |})
               (Some [Some "a"; Some "1"]) 32 sample_state
       with
       | Done h s' =>
           if decide (h = 0)
           then count is_factory_call es = 0%nat /\ heap s' = heap sample_state
           else count is_factory_call es = 1%nat
                /\ exists endpoint, heap s' !! h = Some (TSCEndpointPtr endpoint)
       | Fault f _ =>
           (f = NullString \/ f = NullReference)
           /\ count is_factory_call es = 0%nat
       | OutOfFuel => False
       end.
Proof.
  apply (createEndpoint_outcome bump_alloc sdk_stub
           (Some {| getNativeHandle := 16 |}) (Some [Some "a"; Some "1"]) 32
           sample_state).
  - exact bump_alloc_nonnull.
  - exact bump_alloc_fresh.
  - right. exists 77. reflexivity.
  - intros manager [= <-]. right. exists "tok". reflexivity.
Defined.

End MoreRuns.
